(** * Student result portal: the CSV reader, the column resolver and the
    cascade filters of [script.js]

    JavaScript strings are modelled as [string]: a sequence of code units,
    each below 256 (the Latin-1 range).  On that range [trim] and
    [toLowerCase] are given exactly; the parser only ever inspects the five
    ASCII characters quote, comma, tab, carriage return and line feed.
    Arrays are lists, a row object is a finite map from header names to
    cells together with what it inherits, and [null]/[undefined] is
    [None]. *)

From Stdlib Require Import Ascii String QArith Lqa.
From stdpp Require Import gmap strings list sorting.


(** ** Characters and strings *)

Definition dquote : ascii := ascii_of_nat 34.
Definition comma : ascii := ascii_of_nat 44.
Definition tab : ascii := ascii_of_nat 9.
Definition cr : ascii := ascii_of_nat 13.
Definition lf : ascii := ascii_of_nat 10.

(** [field += char] *)
Definition snoc (s : string) (c : ascii) : string := s +:+ String c "".

(** [text[i]]: the code unit at index [i], [None] for [undefined]. *)
Definition charAt (text : string) (i : nat) : option ascii := String.get i text.

(** [x === c] for a possibly undefined [x]. *)
Definition is_char (x : option ascii) (c : ascii) : bool :=
  match x with Some d => Ascii.eqb d c | None => false end.

(** [s !== ""] *)
Definition nonempty (s : string) : bool :=
  match s with EmptyString => false | String _ _ => true end.

(** [row.length] as a condition. *)
Definition has_cells (row : list string) : bool :=
  match row with [] => false | _ :: _ => true end.

(** The suffix of [s] from index [n] on. *)
Fixpoint skip (n : nat) (s : string) : string :=
  match n, s with
  | 0, _ => s
  | S _, EmptyString => EmptyString
  | S m, String _ t => skip m t
  end.

(** ** parseCSV *)

Module Csv.

(** The loop's variables other than the index [i]. *)
Record state := State {
  out : list (list string);
  row : list string;
  field : string;
  inQuotes : bool
}.

Definition init : state := State [] [] "" false.

Definition set_field (f : string) (s : state) : state :=
  State (out s) (row s) f (inQuotes s).

Definition set_inQuotes (b : bool) (s : state) : state :=
  State (out s) (row s) (field s) b.

(** [row.push(field); field = ""] *)
Definition end_field (s : state) : state :=
  State (out s) (row s ++ [field s]) "" (inQuotes s).

(** [row.push(field); out.push(row); row = []; field = ""] *)
Definition end_row (s : state) : state :=
  State (out s ++ [row s ++ [field s]]) [] "" (inQuotes s).

(** [field !== "" || row.length] *)
Definition pending (s : state) : bool := nonempty (field s) || has_cells (row s).

(** One pass through the body of the [while] loop, entered with
    [i < text.length]; the result is the new index and the new variables. *)
Definition step (text : string) (i : nat) (s : state) : nat * state :=
  match charAt text i with
  | None => (i, s)
  | Some char =>
    if Ascii.eqb char dquote then
      if inQuotes s && is_char (charAt text (i + 1)) dquote
      then (i + 2, set_field (snoc (field s) dquote) s)
      else (i + 1, set_inQuotes (negb (inQuotes s)) s)
    else if negb (inQuotes s) && (Ascii.eqb char comma || Ascii.eqb char tab)
    then (i + 1, end_field s)
    else if negb (inQuotes s) && (Ascii.eqb char cr || Ascii.eqb char lf)
    then
      let s' := if pending s then end_row s else s in
      let i' := if Ascii.eqb char cr && is_char (charAt text (i + 1)) lf
                then i + 1 else i in
      (i' + 1, s')
    else (i + 1, set_field (snoc (field s) char) s)
  end.

(** The [while (i < text.length)] loop, with a bound on the number of
    passes; [None] when the bound is used up before the loop exits. *)
Fixpoint loop (fuel : nat) (text : string) (i : nat) (s : state) : option state :=
  if i <? String.length text then
    match fuel with
    | 0 => None
    | S fuel' => let '(i', s') := step text i s in loop fuel' text i' s'
    end
  else Some s.

(** The flush after the loop and [return out]. *)
Definition finish (s : state) : list (list string) :=
  if pending s then out s ++ [row s ++ [field s]] else out s.

(** [parseCSV(text)]; every pass advances [i], so [text.length] passes are
    enough (see [loop_scan] and [parseCSV_total]). *)
Definition parseCSV (text : string) : option (list (list string)) :=
  finish <$> loop (String.length text) text 0 init.

(** The same scan by recursion on the unread suffix of the text: the form
    used in the proofs, shown equal to the loop in [loop_scan]. *)
Fixpoint scan (rest : string) (s : state) : list (list string) :=
  match rest with
  | EmptyString => finish s
  | String char rest' =>
    if Ascii.eqb char dquote then
      match rest' with
      | String c2 rest'' =>
        if inQuotes s && Ascii.eqb c2 dquote
        then scan rest'' (set_field (snoc (field s) dquote) s)
        else scan rest' (set_inQuotes (negb (inQuotes s)) s)
      | EmptyString => scan rest' (set_inQuotes (negb (inQuotes s)) s)
      end
    else if negb (inQuotes s) && (Ascii.eqb char comma || Ascii.eqb char tab)
    then scan rest' (end_field s)
    else if negb (inQuotes s) && (Ascii.eqb char cr || Ascii.eqb char lf)
    then
      let s' := if pending s then end_row s else s in
      match rest' with
      | String c2 rest'' =>
        if Ascii.eqb char cr && Ascii.eqb c2 lf then scan rest'' s' else scan rest' s'
      | EmptyString => scan rest' s'
      end
    else scan rest' (set_field (snoc (field s) char) s)
  end.

End Csv.

(** ** Record construction *)

(** A row object, made by [{}]: its own properties, header name to cell.
    What it inherits from [Object.prototype] is in [inherited] below. *)
Abbreviation record := (gmap string string).

(** [obj[h] = v] for a string [v]: an own property, except under the name
    [__proto__], where the assignment of a string stores nothing. *)
Definition setProp (obj : record) (h v : string) : record :=
  if String.eqb h "__proto__" then obj else <[h := v]> obj.

(** What a name the object does not hold itself reads as, in the text the
    script makes of the value ([String(...)] in [normalize], [textContent]
    in [renderTable]): [__proto__] reads [Object.prototype], the names of
    its methods read built-in functions (printed as V8 prints them), any
    other name is [undefined]. *)
Definition inherited (name : string) : option string :=
  if String.eqb name "__proto__" then Some "[object Object]"
  else if String.eqb name "constructor"
  then Some "function Object() { [native code] }"
  else if bool_decide (name ∈ ["__defineGetter__"; "__defineSetter__";
                               "hasOwnProperty"; "__lookupGetter__";
                               "__lookupSetter__"; "isPrototypeOf";
                               "propertyIsEnumerable"; "toString"; "valueOf";
                               "toLocaleString"])
  then Some ("function " +:+ name +:+ "() { [native code] }")
  else None.

(** [obj[name]], [None] for [undefined]. *)
Definition getProp (obj : record) (name : string) : option string :=
  match obj !! name with
  | Some v => Some v
  | None => inherited name
  end.

(** [head.forEach((h, i) => { obj[h] = r[i] ?? ""; })] from [obj = {}] *)
Definition toObject (head r : list string) : record :=
  foldl (fun (obj : record) (ih : nat * string) =>
           setProp obj ih.2 (default "" (r !! ih.1)))
        ∅ (imap (fun i h => (i, h)) head).

(** [toObjects(matrix)]: the pair of [headers] and [rows]. *)
Definition toObjects (matrix : list (list string)) : list string * list record :=
  let head := default [] (matrix !! 0) in
  let data := drop 1 matrix in
  (head, map (toObject head) data).

(** ** normalize and lower *)

(** The code units below 256 that [trim] strips: tab, line feed, vertical
    tab, form feed, carriage return, space and no-break space. *)
Definition is_space (c : ascii) : bool :=
  let n := N_of_ascii c in
  ((n =? 9) || (n =? 10) || (n =? 11) || (n =? 12) || (n =? 13)
   || (n =? 32) || (n =? 160))%N.

Fixpoint trimStart (s : string) : string :=
  match s with
  | EmptyString => EmptyString
  | String c t => if is_space c then trimStart t else s
  end.

Fixpoint trimEnd (s : string) : string :=
  match s with
  | EmptyString => EmptyString
  | String c t =>
    let t' := trimEnd t in
    if is_space c && negb (nonempty t') then EmptyString else String c t'
  end.

Definition trim (s : string) : string := trimEnd (trimStart s).

(** [toLowerCase] on one code unit below 256: A-Z and the accented capitals
    192-222 (the multiplication sign 215 apart) move up by 32. *)
Definition lower_char (c : ascii) : ascii :=
  let n := N_of_ascii c in
  if ((65 <=? n) && (n <=? 90) || (192 <=? n) && (n <=? 222) && negb (n =? 215))%N
  then ascii_of_N (n + 32) else c.

Fixpoint toLowerCase (s : string) : string :=
  match s with
  | EmptyString => EmptyString
  | String c t => String (lower_char c) (toLowerCase t)
  end.

(** [normalize(s)] = [String(s || "").trim()], for [s] a string or
    [undefined]. *)
Definition normalize (s : option string) : string := trim (default "" s).

(** [lower(s)] *)
Definition lower (s : option string) : string := toLowerCase (normalize s).

(** [s.includes(t)] *)
Fixpoint includes (s t : string) : bool :=
  String.prefix t s ||
  match s with
  | EmptyString => false
  | String _ s' => includes s' t
  end.

(** A value used as a condition: [null], [undefined] and [""] are falsy. *)
Definition truthy (v : option string) : bool :=
  match v with Some s => nonempty s | None => false end.

(** ** resolveColumns *)

Inductive role := class | division | roll.

Definition key (k : role) : string :=
  match k with class => "class" | division => "division" | roll => "roll" end.

(** [COLUMN_ALIASES] *)
Definition COLUMN_ALIASES (k : role) : list string :=
  match k with
  | class => ["class"; "std"; "grade"]
  | division => ["division"; "div"; "section"]
  | roll => ["roll"; "rollno"; "roll no"; "roll number"; "roll_number"]
  end.

(** [l.indexOf(x)], [None] for -1. *)
Definition indexOf (l : list string) (x : string) : option nat :=
  fst <$> list_find (fun y => y = x) l.

(** The loop over [aliases[key]]: the value of [found[key]] after it. *)
Fixpoint tryAliases (headers lowerHeaders candidates : list string) : option string :=
  match candidates with
  | [] => None
  | candidate :: rest =>
    match indexOf lowerHeaders candidate with
    | Some idx => headers !! idx
    | None => tryAliases headers lowerHeaders rest
    end
  end.

(** [headers.find(h => lower(h).includes(key))] *)
Definition partialMatch (headers : list string) (k : role) : option string :=
  snd <$> list_find (fun h => includes (lower (Some h)) (key k) = true) headers.

(** [found[key]] after the loop over [aliases[key]]. *)
Definition aliasResult (headers : list string) (aliases : role -> list string)
    (k : role) : option string :=
  let lowerHeaders := map (fun h => lower (Some h)) headers in
  tryAliases headers lowerHeaders (aliases k).

(** The guard [!found[key]] of the last resort. *)
Definition fallbackRuns (headers : list string) (aliases : role -> list string)
    (k : role) : bool :=
  negb (truthy (aliasResult headers aliases k)).

(** The body of the loop over the three keys. *)
Definition resolveKey (headers : list string) (aliases : role -> list string)
    (k : role) : option string :=
  let found := aliasResult headers aliases k in
  if fallbackRuns headers aliases k then
    let match_ := partialMatch headers k in
    if truthy match_ then match_ else found
  else found.

(** [resolveColumns(headers, aliases)]: the object [found], by key. *)
Definition resolveColumns (headers : list string) (aliases : role -> list string)
    : role -> option string :=
  fun k => resolveKey headers aliases k.

(** ** uniqueSorted *)

(** A JavaScript number, as far as the comparator can tell numbers apart:
    not-a-number, the two infinities, or a finite value. *)
Inductive number := NaN | NegInf | Fin (q : Q) | PosInf.

(** [Number.isNaN(x)] *)
Definition isNaN (x : number) : bool :=
  match x with NaN => true | _ => false end.

(** [x - y].  The difference of two finite doubles is rounded by the
    machine, but it is zero exactly when they are equal and has the sign of
    the exact difference otherwise, which is all a sort reads from it. *)
Definition sub (x y : number) : number :=
  match x, y with
  | NaN, _ | _, NaN => NaN
  | PosInf, PosInf | NegInf, NegInf => NaN
  | PosInf, _ | _, NegInf => PosInf
  | NegInf, _ | _, PosInf => NegInf
  | Fin p, Fin q => Fin (p - q)
  end.

(** How a sort reads the value [v] returned by its comparator: [Lt] when
    [v < 0], [Gt] when [v > 0], [Eq] otherwise (zero or not-a-number). *)
Definition sign (v : number) : comparison :=
  match v with
  | NaN => Eq
  | NegInf => Lt
  | PosInf => Gt
  | Fin q => (q ?= 0)%Q
  end.

(** What the script takes from its host and the model leaves open: the
    conversion [Number(s)] of a string to a number, and the locale's
    collation [a.localeCompare(b, undefined, {numeric: true, sensitivity:
    "base"})]. *)
Class Host := {
  Number : string -> number;
  localeCompare : string -> string -> number
}.

(** [new Set(values)] spread into an array: each value once, in the order
    of first occurrence. *)
Definition Set_add (acc : list string) (v : string) : list string :=
  if decide (v ∈ acc) then acc else acc ++ [v].

Definition Set_of (values : list string) : list string := foldl Set_add [] values.

Section Sorting.
Context {A : Type} (compareFn : A -> A -> number).

(** Puts [x] behind the last element it does not come before. *)
Fixpoint insert_sorted (x : A) (l : list A) : list A :=
  match l with
  | [] => [x]
  | y :: l' =>
    match sign (compareFn x y) with
    | Lt => x :: l
    | _ => y :: insert_sorted x l'
    end
  end.

(** [l.sort(compareFn)].  The language fixes the outcome when the
    comparator is consistent on the elements of [l]: the stable sorted
    arrangement, which is what this insertion sort returns.  (For an
    inconsistent comparator the order is left to the implementation and
    only the elements are fixed.) *)
Definition sort (l : list A) : list A :=
  foldl (fun acc x => insert_sorted x acc) [] l.

End Sorting.

Section Unique.
Context `{Host}.

(** The comparator passed to [sort] in [uniqueSorted]. *)
Definition compareValues (a b : string) : number :=
  let na := Number a in
  let nb := Number b in
  if negb (isNaN na) && negb (isNaN nb) then sub na nb
  else localeCompare a b.

(** [uniqueSorted(values)] *)
Definition uniqueSorted (values : list (option string)) : list string :=
  sort compareValues
       (Set_of (filter (fun v => nonempty v = true) (map normalize values))).

(** ** The cascade *)

(** [r[k]] for a key that may be [null] (which reads the property named
    "null"). *)
Definition prop (r : record) (k : option string) : option string :=
  getProp r (default "null" k).

(** [normalize(r[k]) === normalize(selected)] *)
Definition same (r : record) (k : option string) (selected : string) : bool :=
  String.eqb (normalize (prop r k)) (normalize (Some selected)).

Context (rows : list record) (idx : role -> option string).

(** The options of the class menu ([cascadePopulate]). *)
Definition classValues : list string :=
  uniqueSorted (map (fun r => prop r (idx class)) rows).

(** The options of the division menu ([onClassChange]) for the menu value
    [cls]. *)
Definition divisionValues (cls : string) : list string :=
  if negb (nonempty cls) then []
  else
    let filtered := filter (fun r => same r (idx class) cls = true) rows in
    uniqueSorted (map (fun r => prop r (idx division)) filtered).

(** The options of the roll menu ([onDivisionChange]). *)
Definition rollValues (cls div : string) : list string :=
  if negb (nonempty cls) || negb (nonempty div) then []
  else
    let filtered :=
      filter (fun r => same r (idx class) cls && same r (idx division) div = true)
             rows in
    uniqueSorted (map (fun r => prop r (idx roll)) filtered).

(** The search of [onRollChange]: [rows.find(...)]. *)
Definition findRecord (cls div roll_ : string) : option record :=
  snd <$> list_find (fun r => same r (idx class) cls &&
                              same r (idx division) div &&
                              same r (idx roll) roll_ = true) rows.

(** What [onRollChange] leaves on the page. *)
Inductive view := Hidden | Card (r : record) | NoMatch.

Definition onRollChange (cls div roll_ : string) : view :=
  if negb (nonempty cls) || negb (nonempty div) || negb (nonempty roll_) then Hidden
  else
    match findRecord cls div roll_ with
    | Some r => Card r
    | None => NoMatch
    end.

End Unique.

(** ** Trimming, said without [trim] *)

(** White space only (the empty string included). *)
Fixpoint blank (s : string) : bool :=
  match s with
  | EmptyString => true
  | String c t => is_space c && blank t
  end.

(** [s] starts with white space. *)
Definition head_space (s : string) : bool :=
  match s with String c _ => is_space c | EmptyString => false end.

(** [s] ends with white space. *)
Fixpoint last_space (s : string) : bool :=
  match s with
  | EmptyString => false
  | String c t =>
    match t with
    | EmptyString => is_space c
    | String _ _ => last_space t
    end
  end.

(** [x] is [raw] without the white space at its two ends. *)
Definition trims_to (raw x : string) : Prop :=
  head_space x = false /\ last_space x = false /\
  exists pre post,
    blank pre = true /\ blank post = true /\ raw = pre +:+ x +:+ post.

(** [a] and [b] are the same once trimmed. *)
Definition same_trimmed (a b : string) : Prop :=
  exists c, trims_to a c /\ trims_to b c.

(** The cell of record [r] under the key [k], a missing one being empty. *)
Definition cell (r : record) (k : option string) : string :=
  default "" (prop r k).

(** ** Notions used to state the properties *)


(** [l.join(sep)] *)
Fixpoint join (sep : string) (l : list string) : string :=
  match l with
  | [] => ""
  | x :: l' =>
    match l' with
    | [] => x
    | _ :: _ => x +:+ sep +:+ join sep l'
    end
  end.

(** The comma-and-newline serialization of the round-trip property.  The
    script has no serializer; this one follows the specification: the cells
    of a row joined by commas, the rows joined by line feeds. *)
Definition serialize (matrix : list (list string)) : string :=
  join (String lf "") (map (join (String comma "")) matrix).

(** A cell free of comma, tab, quote, carriage return and line feed. *)
Definition plain_char (c : ascii) : bool :=
  negb (Ascii.eqb c comma || Ascii.eqb c tab || Ascii.eqb c dquote
        || Ascii.eqb c cr || Ascii.eqb c lf).

Fixpoint plain (cell : string) : bool :=
  match cell with
  | EmptyString => true
  | String c t => plain_char c && plain t
  end.

(** The alias walk as the specification words it: every alias is
    lower-cased and trimmed before it is compared with the lower-cased,
    trimmed headers. *)
Definition specAliasResult (headers : list string) (aliases : role -> list string)
    (k : role) : option string :=
  tryAliases headers (map (fun h => lower (Some h)) headers)
             (map (fun a => lower (Some a)) (aliases k)).

(** An alias table that spells the class alias with a capital. *)
Definition capitalAliases (k : role) : list string :=
  match k with
  | class => ["Std"]
  | _ => COLUMN_ALIASES k
  end.


(** A host to run the examples on: it reads strings of decimal digits as
    numbers, every other non-empty string as not-a-number, and collates by
    code unit. *)
Fixpoint digitsValue (acc : N) (s : string) : option N :=
  match s with
  | EmptyString => Some acc
  | String c t =>
    let n := N_of_ascii c in
    if ((48 <=? n) && (n <=? 57))%N then digitsValue (acc * 10 + (n - 48)) t
    else None
  end.

Definition exampleHost : Host := {|
  Number := fun s =>
    match digitsValue 0 (trim s) with
    | Some n => Fin (inject_Z (Z.of_N n))
    | None => NaN
    end;
  localeCompare := fun a b =>
    match String.compare a b with
    | Lt => Fin (-1)
    | Eq => Fin 0
    | Gt => Fin 1
    end
|}.

(** The sheet of the cascade example, its records and its resolved roles. *)
Definition exampleMatrix : list (list string) :=
  [["class"; "div"; "roll"]; ["10"; "A"; "1"]; ["10"; "B"; "2"]; ["9"; "A"; "1"]].

Definition exampleRows : list record := (toObjects exampleMatrix).2.

Definition exampleIdx : role -> option string :=
  resolveColumns (toObjects exampleMatrix).1 COLUMN_ALIASES.

(** The record [r] agrees with the three selections: its cells under the
    three resolved headers equal them, both sides without the white space at
    their two ends. *)
Definition matches (idx : role -> option string) (cls div roll_ : string)
    (r : record) : Prop :=
  same_trimmed (cell r (idx class)) cls /\
  same_trimmed (cell r (idx division)) div /\
  same_trimmed (cell r (idx roll)) roll_.

(** Every row has a cell. *)
Definition rows_nonempty (m : list (list string)) : Prop :=
  Forall (fun r : list string => r ≠ []) m.

(** A row that survives the round trip: it has a cell, and it is not the
    single empty cell (whose line would be blank). *)
Definition visible (r : list string) : Prop := r ≠ [] /\ r ≠ [""].

(** ** The page: menus, table and bootstrap *)

Module Ui.

(** A [select] element as the script leaves it: its options, each a value
    and a text, and its [disabled] flag. *)
Record select := Select {
  options : list (string * string);
  disabled : bool
}.

(** [fillSelect(select, values, placeholder)] *)
Definition fillSelect (values : list string) (placeholder : string) : select :=
  Select (("", placeholder) :: map (fun v => (v, v)) values)
         (bool_decide (length values = 0)).

(** [renderTable(rowObj)]: the texts of the header cells and of the cells
    of the one body row. *)
Definition renderTable (headers : list string) (rowObj : record)
    : list string * list string :=
  (headers, map (fun h => default "" (getProp rowObj h)) headers).

(** The parts of the page the handlers write: the three menus, the class
    [hidden] on the result card and on the no-match note, and the table. *)
Record page := Page {
  classSelect : select;
  divSelect : select;
  rollSelect : select;
  cardHidden : bool;
  noMatchHidden : bool;
  table : list string * list string
}.

Section Handlers.
Context `{Host} (headers : list string) (rows : list record)
        (idx : role -> option string).

Definition cascadePopulate (p : page) : page :=
  let classes := uniqueSorted (map (fun r => prop r (idx class)) rows) in
  Page (fillSelect classes "Select class")
       (Select (options (divSelect p)) true)
       (Select (options (rollSelect p)) true)
       (cardHidden p) (noMatchHidden p) (table p).

(** [onClassChange], [cls] being [classSelect.value]. *)
Definition onClassChange (cls : string) (p : page) : page :=
  if negb (nonempty cls) then
    Page (classSelect p)
         (fillSelect [] "Select class first")
         (fillSelect [] "Select class & division first")
         true true (table p)
  else
    let filtered := filter (fun r => same r (idx class) cls = true) rows in
    let divs := uniqueSorted (map (fun r => prop r (idx division)) filtered) in
    Page (classSelect p)
         (fillSelect divs "Select division")
         (fillSelect [] "Select division first")
         true true (table p).

(** [onDivisionChange], [cls] and [div] being the values of the first two
    menus. *)
Definition onDivisionChange (cls div : string) (p : page) : page :=
  if negb (nonempty cls) || negb (nonempty div) then
    Page (classSelect p) (divSelect p)
         (fillSelect [] "Select class & division first")
         true true (table p)
  else
    let filtered :=
      filter (fun r => same r (idx class) cls && same r (idx division) div = true)
             rows in
    let rolls := uniqueSorted (map (fun r => prop r (idx roll)) filtered) in
    Page (classSelect p) (divSelect p)
         (fillSelect rolls "Select roll no.")
         true true (table p).

(** [onRollChange], on the page. *)
Definition onRollChange (cls div roll_ : string) (p : page) : page :=
  if negb (nonempty cls) || negb (nonempty div) || negb (nonempty roll_) then
    Page (classSelect p) (divSelect p) (rollSelect p) true true (table p)
  else
    let match_ :=
      snd <$> list_find (fun r => same r (idx class) cls &&
                                  same r (idx division) div &&
                                  same r (idx roll) roll_ = true) rows in
    match match_ with
    | Some r =>
      Page (classSelect p) (divSelect p) (rollSelect p) false true
           (renderTable headers r)
    | None =>
      Page (classSelect p) (divSelect p) (rollSelect p) true false (table p)
    end.

(** [clearFilters]; the selected index of the class menu is not part of
    the model. *)
Definition clearFilters (p : page) : page :=
  Page (classSelect p)
       (Select [("", "Select class first")] true)
       (Select [("", "Select class & division first")] true)
       true true (table p).

End Handlers.

(** Why [init] stops: the [Error] it throws and reports in the status box. *)
Inductive initError :=
  | UrlNotSet
  | FetchFailed (status : nat)
  | CsvEmpty
  | ColumnsMissing (headers : list string).

(** The state [init] sets up: [headers], [rows], [idx], and the page. *)
Record session := Session {
  s_headers : list string;
  s_rows : list record;
  s_idx : role -> option string;
  s_page : page
}.

(** [init()], given the configured URL and what the fetch returned ([ok],
    [status] and the body text); the page [p] is the page before.  The
    outer [option] is the pass bound of [parseCSV]. *)
Definition init `{Host} (url : string) (ok : bool) (status : nat) (text : string)
    (p : page) : option (initError + session) :=
  if negb (nonempty url) || includes url "XXXX" then Some (inl UrlNotSet)
  else if negb ok then Some (inl (FetchFailed status))
  else
    matrix ← Csv.parseCSV text;
    if bool_decide (length matrix = 0) then Some (inl CsvEmpty)
    else
      let '(hdrs, objs) := toObjects matrix in
      let idx := resolveColumns hdrs COLUMN_ALIASES in
      if negb (truthy (idx class)) || negb (truthy (idx division))
         || negb (truthy (idx roll))
      then Some (inl (ColumnsMissing hdrs))
      else
        let p1 := cascadePopulate objs idx p in
        Some (inr (Session hdrs objs idx
                     (Page (Select (options (classSelect p1)) false)
                           (divSelect p1) (rollSelect p1)
                           (cardHidden p1) (noMatchHidden p1) (table p1)))).

End Ui.

(** ** Writing a sheet as text *)

(** The content of a quoted field: every quote doubled. *)
Fixpoint escapeQuotes (s : string) : string :=
  match s with
  | EmptyString => EmptyString
  | String c t =>
    if Ascii.eqb c dquote then String dquote (String dquote (escapeQuotes t))
    else String c (escapeQuotes t)
  end.

(** A cell written between quotes. *)
Definition quoteCell (cell : string) : string :=
  String dquote (escapeQuotes cell +:+ String dquote "").

(** A cell as a sheet exports it: as it is when it holds no comma, tab,
    quote or line break, between quotes otherwise. *)
Definition writeCell (cell : string) : string :=
  if plain cell then cell else quoteCell cell.

(** The matrix as text: cells separated by [sep], rows by the line break
    [nl], with or without a line break after the last row. *)
Definition writeCsv (sep : ascii) (nl : string) (trailing : bool)
    (matrix : list (list string)) : string :=
  join nl (map (fun r => join (String sep "") (map writeCell r)) matrix)
  +:+ (if trailing then nl else "").

(** The cell separators and the line breaks the parser knows. *)
Definition is_separator (sep : ascii) : Prop := sep = comma \/ sep = tab.

Definition is_linebreak (nl : string) : Prop :=
  nl = String lf "" \/ nl = String cr (String lf "") \/ nl = String cr "".

(** [s] starts with the character [c]. *)
Definition starts_with (c : ascii) (s : string) : bool :=
  match s with String d _ => Ascii.eqb d c | EmptyString => false end.

(** [c] occurs in [s]. *)
Fixpoint has_char (c : ascii) (s : string) : bool :=
  match s with
  | EmptyString => false
  | String d t => Ascii.eqb d c || has_char c t
  end.

(** A row padded with empty cells, or cut, to [n] cells. *)
Definition fit (n : nat) (r : list string) : list string :=
  take n (r ++ replicate (n - length r) "").

(** The variables of the loop while no quote has been met. *)
Definition all_plain (s : Csv.state) : Prop :=
  Csv.inQuotes s = false /\ plain (Csv.field s) = true /\
  Forall (fun cell => plain cell = true) (Csv.row s) /\
  Forall (Forall (fun cell => plain cell = true)) (Csv.out s).

(** * Facts *)

(** ** Strings *)

Lemma append_nil_l (t : string) : "" +:+ t = t.
Proof. reflexivity. Qed.

Lemma append_cons (c : ascii) (s t : string) : String c s +:+ t = String c (s +:+ t).
Proof. reflexivity. Qed.

Lemma append_nil_r (s : string) : s +:+ "" = s.
Proof. induction s as [|c s IH]; [done | by rewrite append_cons, IH]. Qed.

Lemma append_assoc (s t u : string) : (s +:+ t) +:+ u = s +:+ (t +:+ u).
Proof. induction s as [|c s IH]; [done | by rewrite !append_cons, IH]. Qed.

Lemma snoc_append (s t : string) (c : ascii) : snoc s c +:+ t = s +:+ String c t.
Proof. unfold snoc. by rewrite append_assoc. Qed.

Lemma nonempty_append (s t : string) :
  nonempty (s +:+ t) = nonempty s || nonempty t.
Proof. by destruct s. Qed.

Lemma nonempty_false (s : string) : nonempty s = false <-> s = "".
Proof. by destruct s. Qed.

Lemma nonempty_true (s : string) : nonempty s = true <-> s ≠ "".
Proof. by destruct s. Qed.

Lemma get_skip (i : nat) (text : string) :
  String.get i text = match skip i text with String c _ => Some c | EmptyString => None end.
Proof.
  revert text. induction i as [|i IH]; intros [|c text]; simpl; try done.
Qed.

Lemma skip_succ (i : nat) (text : string) :
  skip (S i) text = match skip i text with String _ t => t | EmptyString => "" end.
Proof.
  revert text. induction i as [|i IH]; intros [|c text]; try done.
  change (skip (S (S i)) (String c text)) with (skip (S i) text). by rewrite IH.
Qed.

Lemma skip_empty_iff (i : nat) (text : string) :
  skip i text = "" <-> String.length text <= i.
Proof.
  revert text. induction i as [|i IH]; intros [|c text]; simpl; try (split; [lia | done]).
  - split; [done | lia].
  - rewrite IH. lia.
Qed.

(** ** The loop and the scan agree *)

Import Csv.

Lemma loop_scan (fuel : nat) (text : string) (i : nat) (s : state) :
  String.length text - i <= fuel ->
  finish <$> loop fuel text i s = Some (scan (skip i text) s).
Proof.
  revert i s. induction fuel as [|fuel IH]; intros i s Hfuel.
  - simpl. destruct (Nat.ltb_spec i (String.length text)); [lia|].
    simpl. by rewrite (proj2 (skip_empty_iff i text)).
  - simpl. destruct (Nat.ltb_spec i (String.length text)) as [Hlt|Hge]; last first.
    { simpl. by rewrite (proj2 (skip_empty_iff i text)). }
    unfold step, charAt. rewrite !Nat.add_1_r, (get_skip i), (get_skip (S i)).
    pose proof (skip_succ i text) as Hs1.
    pose proof (skip_succ (S i) text) as Hs2.
    destruct (skip i text) as [|char rest'] eqn:Hi.
    { apply skip_empty_iff in Hi. lia. }
    rewrite Hs1 in Hs2 |- *. simpl scan.
    replace (i + 2) with (S (S i)) by lia.
    destruct (Ascii.eqb char dquote).
    { destruct rest' as [|c2 rest'']; simpl is_char.
      - rewrite andb_false_r. rewrite IH by lia. by rewrite Hs1.
      - destruct (inQuotes s && Ascii.eqb c2 dquote).
        + rewrite IH by lia. by rewrite Hs2.
        + rewrite IH by lia. by rewrite Hs1. }
    destruct (negb (inQuotes s) && (Ascii.eqb char comma || Ascii.eqb char tab)).
    { rewrite IH by lia. by rewrite Hs1. }
    destruct (negb (inQuotes s) && (Ascii.eqb char cr || Ascii.eqb char lf)).
    { cbv zeta. destruct rest' as [|c2 rest'']; simpl is_char.
      - rewrite andb_false_r, Nat.add_1_r. rewrite IH by lia. by rewrite Hs1.
      - destruct (Ascii.eqb char cr && Ascii.eqb c2 lf).
        + rewrite Nat.add_1_r, IH by lia. by rewrite Hs2.
        + rewrite Nat.add_1_r, IH by lia. by rewrite Hs1. }
    rewrite IH by lia. by rewrite Hs1.
Qed.

Lemma parseCSV_scan (text : string) : parseCSV text = Some (scan text init).
Proof. unfold parseCSV. rewrite loop_scan by lia. done. Qed.

(** ** The parser *)


Lemma set_field_id (s : state) : set_field (field s) s = s.
Proof. by destruct s. Qed.

Lemma scan_cons (char : ascii) (rest' : string) (s : state) :
  scan (String char rest') s =
  if Ascii.eqb char dquote then
    match rest' with
    | String c2 rest'' =>
      if inQuotes s && Ascii.eqb c2 dquote
      then scan rest'' (set_field (snoc (field s) dquote) s)
      else scan rest' (set_inQuotes (negb (inQuotes s)) s)
    | EmptyString => scan rest' (set_inQuotes (negb (inQuotes s)) s)
    end
  else if negb (inQuotes s) && (Ascii.eqb char comma || Ascii.eqb char tab)
  then scan rest' (end_field s)
  else if negb (inQuotes s) && (Ascii.eqb char cr || Ascii.eqb char lf)
  then
    let s' := if pending s then end_row s else s in
    match rest' with
    | String c2 rest'' =>
      if Ascii.eqb char cr && Ascii.eqb c2 lf then scan rest'' s' else scan rest' s'
    | EmptyString => scan rest' s'
    end
  else scan rest' (set_field (snoc (field s) char) s).
Proof. reflexivity. Qed.



Lemma step_rows_nonempty (text : string) (i : nat) (s : state) :
  rows_nonempty (out s) -> rows_nonempty (out (step text i s).2).
Proof.
  intros Hs. unfold step.
  repeat (case_match; simpl; try done).
  apply Forall_app. split; [done|]. apply Forall_singleton.
  by destruct (row s).
Qed.

Lemma loop_rows_nonempty (fuel : nat) (text : string) :
  forall (i : nat) (s s' : state),
    loop fuel text i s = Some s' -> rows_nonempty (out s) -> rows_nonempty (out s').
Proof.
  induction fuel as [|fuel IH]; intros i s s' Hl Hs; simpl in Hl.
  - destruct (i <? String.length text); naive_solver.
  - destruct (i <? String.length text); [|naive_solver].
    pose proof (step_rows_nonempty text i s Hs) as Hstep.
    destruct (step text i s) as [i1 s1]. eauto.
Qed.

Lemma finish_rows_nonempty (s : state) :
  rows_nonempty (out s) -> rows_nonempty (finish s).
Proof.
  intros Hs. unfold finish. destruct (pending s); [|done].
  apply Forall_app. split; [done|]. apply Forall_singleton. by destruct (row s).
Qed.

(** ** Reading back a serialized matrix *)

Lemma scan_plain_char (c : ascii) (rest : string) (s : state) :
  plain_char c = true ->
  scan (String c rest) s = scan rest (set_field (snoc (field s) c) s).
Proof.
  unfold plain_char. intros Hc. apply negb_true_iff in Hc.
  repeat (apply orb_false_iff in Hc as [Hc ?]).
  rewrite scan_cons. repeat match goal with H : Ascii.eqb _ _ = false |- _ => rewrite H; clear H end.
  by rewrite !andb_false_r.
Qed.

Lemma scan_plain (cell : string) :
  forall (rest : string) (s : state),
    plain cell = true ->
    scan (cell +:+ rest) s = scan rest (set_field (field s +:+ cell) s).
Proof.
  induction cell as [|c cell IH]; intros rest s Hp.
  - by rewrite append_nil_l, append_nil_r, set_field_id.
  - simpl in Hp. apply andb_true_iff in Hp as [Hc Hp].
    rewrite append_cons, scan_plain_char, IH by done. simpl.
    by rewrite snoc_append.
Qed.

Lemma scan_comma (rest : string) (s : state) :
  inQuotes s = false -> scan (String comma rest) s = scan rest (end_field s).
Proof. intros Hq. rewrite scan_cons, Hq. reflexivity. Qed.

Lemma scan_lf (rest : string) (s : state) :
  inQuotes s = false ->
  scan (String lf rest) s = scan rest (if pending s then end_row s else s).
Proof. intros Hq. rewrite scan_cons, Hq. by destruct rest. Qed.

Lemma scan_cells (cells : list string) :
  forall (rest : string) (o : list (list string)) (r : list string),
    cells ≠ [] -> Forall (fun cell => plain cell = true) cells ->
    scan (join (String comma "") cells +:+ rest) (State o r "" false) =
    scan rest (State o (r ++ removelast cells) (List.last cells "") false).
Proof.
  induction cells as [|x cells IH]; intros rest o r Hne Hp; [done|].
  apply Forall_cons in Hp as [Hx Hp].
  destruct cells as [|y cells].
  - simpl. rewrite scan_plain by done. simpl. by rewrite app_nil_r.
  - change (join (String comma "") (x :: y :: cells))
      with (x +:+ String comma "" +:+ join (String comma "") (y :: cells)).
    rewrite !append_assoc, append_cons, append_nil_l.
    rewrite scan_plain, scan_comma by done.
    unfold end_field. simpl. rewrite IH by done.
    change (removelast (x :: y :: cells)) with (x :: removelast (y :: cells)).
    change (List.last (x :: y :: cells) "") with (List.last (y :: cells) "").
    by rewrite <- app_assoc.
Qed.

Lemma visible_pending (cells : list string) (o : list (list string)) :
  visible cells ->
  pending (State o (removelast cells) (List.last cells "") false) = true.
Proof.
  intros [Hne Hne']. unfold pending. simpl.
  destruct cells as [|x [|y cells]]; [done| |].
  - simpl. destruct x; [done|done].
  - by rewrite orb_true_r.
Qed.

Lemma scan_serialize (m : list (list string)) :
  forall o : list (list string),
    Forall visible m ->
    Forall (Forall (fun cell => plain cell = true)) m ->
    scan (serialize m) (State o [] "" false) = o ++ m.
Proof.
  induction m as [|r m IH]; intros o Hv Hp.
  - simpl. by rewrite app_nil_r.
  - apply Forall_cons in Hv as [Hr Hv]. apply Forall_cons in Hp as [Hpr Hp].
    pose proof (visible_pending r o Hr) as Hpend.
    assert (removelast r ++ [List.last r ""] = r) as Hr'.
    { symmetry. apply app_removelast_last. apply Hr. }
    destruct m as [|r2 m].
    + unfold serialize. simpl map. simpl join.
      rewrite <- (append_nil_r (join (String comma "") r)).
      rewrite scan_cells by (done || apply Hr). rewrite app_nil_l. simpl scan.
      unfold finish. rewrite Hpend. simpl. by rewrite Hr'.
    + change (serialize (r :: r2 :: m))
        with (join (String comma "") r +:+ String lf "" +:+ serialize (r2 :: m)).
      rewrite append_cons, append_nil_l.
      rewrite scan_cells by (done || apply Hr). rewrite app_nil_l.
      rewrite scan_lf by done. rewrite Hpend. unfold end_row. simpl.
      rewrite Hr', IH by done. by rewrite <- app_assoc.
Qed.

(** ** The properties of the parser *)

(** C5: inside a quoted region a quote directly followed by a quote puts one
    quote character into the current field and moves the index past both;
    the text made of an opening quote, [he said], two quotes, [hi] and three
    closing quotes parses to one row holding the one field [he said "hi"]
    (quotes included). *)
Theorem C5_escaped_quote :
  (forall (text : string) (i : nat) (s : state),
     inQuotes s = true ->
     charAt text i = Some dquote ->
     charAt text (i + 1) = Some dquote ->
     step text i s = (i + 2, set_field (snoc (field s) dquote) s)) /\
  parseCSV (String dquote ("he said " +:+ String dquote (String dquote
             ("hi" +:+ String dquote (String dquote (String dquote ""))))))
  = Some [["he said " +:+ String dquote ("hi" +:+ String dquote "")]].
Proof.
  split; [|reflexivity].
  intros text i s Hq H1 H2. unfold step. rewrite H1, H2, Hq. reflexivity.
Qed.

Lemma C5_escaped_quote_witness :
  inQuotes (State [] [] "a" true) = true /\
  charAt ("x" +:+ String dquote (String dquote "y")) 1 = Some dquote /\
  charAt ("x" +:+ String dquote (String dquote "y")) (1 + 1) = Some dquote /\
  step ("x" +:+ String dquote (String dquote "y")) 1 (State [] [] "a" true)
  = (1 + 2, State [] [] ("a" +:+ String dquote "") true).
Proof.
  split; [reflexivity | split; [reflexivity | split; [reflexivity|]]].
  apply (proj1 C5_escaped_quote); reflexivity.
Defined.

(** C6 (amended): for a matrix whose cells hold no comma, tab, quote,
    carriage return or line feed, and whose rows each have a cell and are not
    the single empty cell, parsing the serialization gives the matrix
    back. *)
Theorem C6_roundtrip (m : list (list string)) :
  Forall (Forall (fun cell => plain cell = true)) m ->
  Forall visible m ->
  parseCSV (serialize m) = Some m.
Proof.
  intros Hp Hv. rewrite parseCSV_scan. unfold init.
  by rewrite scan_serialize.
Qed.

Lemma C6_roundtrip_witness :
  Forall (Forall (fun cell => plain cell = true)) [["a"; ""; "b c"]; [""; ""]; ["d"]] /\
  Forall visible [["a"; ""; "b c"]; [""; ""]; ["d"]] /\
  parseCSV (serialize [["a"; ""; "b c"]; [""; ""]; ["d"]])
  = Some [["a"; ""; "b c"]; [""; ""]; ["d"]].
Proof.
  assert (Forall (Forall (fun cell => plain cell = true))
            [["a"; ""; "b c"]; [""; ""]; ["d"]]) as Hp
    by (repeat constructor).
  assert (Forall visible [["a"; ""; "b c"]; [""; ""]; ["d"]]) as Hv
    by (repeat constructor; discriminate).
  exact (conj Hp (conj Hv (C6_roundtrip _ Hp Hv))).
Defined.

(** The matrix with the single row holding the single empty cell has no
    delimiter in any cell, yet its serialization (the empty text) parses to
    the empty matrix. *)
Lemma C6_roundtrip_counterexample :
  Forall (Forall (fun cell => plain cell = true)) [[""]] /\
  parseCSV (serialize [[""]]) = Some [] /\
  parseCSV (serialize [[""]]) ≠ Some [[""]].
Proof. split; [repeat constructor | split; [reflexivity | discriminate]]. Qed.



(** C9: an unquoted carriage return or line feed met while the field is
    empty and the row has no cell changes nothing (no row is emitted); a
    second line feed after an unquoted one is therefore without effect, and
    the text [a], line feed, line feed, [b] parses to the rows [a] and
    [b]. *)
Theorem C9_blank_lines_suppressed :
  (forall (text : string) (i : nat) (s : state) (c : ascii),
     charAt text i = Some c -> c = cr \/ c = lf ->
     inQuotes s = false -> field s = "" -> row s = [] ->
     (step text i s).2 = s) /\
  (forall (rest : string) (s : state),
     inQuotes s = false ->
     scan (String lf (String lf rest)) s = scan (String lf rest) s) /\
  parseCSV ("a" +:+ String lf (String lf "b")) = Some [["a"]; ["b"]].
Proof.
  repeat split.
  - intros text i s c Hc Hnl Hq Hf Hr. unfold step. rewrite Hc, Hq.
    assert (pending s = false) as -> by (unfold pending; by rewrite Hf, Hr).
    by destruct Hnl as [-> | ->].
  - intros rest s Hq.
    rewrite (scan_lf (String lf rest) s Hq), (scan_lf rest s Hq).
    destruct (pending s) eqn:Hp.
    + by rewrite (scan_lf rest (end_row s) Hq).
    + by rewrite (scan_lf rest s Hq), Hp.
Qed.

Lemma C9_blank_lines_suppressed_witness :
  (charAt (String lf "b") 0 = Some lf /\
   (step (String lf "b") 0 (State [["a"]] [] "" false)).2
   = State [["a"]] [] "" false) /\
  (inQuotes (State [] [] "a" false) = false /\
   scan (String lf (String lf "b")) (State [] [] "a" false)
   = scan (String lf "b") (State [] [] "a" false)).
Proof.
  split; (split; [reflexivity|]).
  - apply (proj1 C9_blank_lines_suppressed (String lf "b") 0 _ lf); auto.
  - apply (proj1 (proj2 C9_blank_lines_suppressed)). reflexivity.
Defined.

(** C10: for every text the parser returns a matrix, and every row of it
    has at least one cell. *)
Theorem C10_rows_nonempty (text : string) :
  exists m, parseCSV text = Some m /\ rows_nonempty m.
Proof.
  unfold parseCSV.
  destruct (loop (String.length text) text 0 init) as [s|] eqn:Hl.
  - exists (finish s). split; [done|].
    apply finish_rows_nonempty.
    apply (loop_rows_nonempty _ _ _ _ _ Hl). constructor.
  - pose proof (loop_scan (String.length text) text 0 init) as Hs.
    rewrite Hl in Hs. specialize (Hs ltac:(lia)). done.
Qed.

(** A carriage return directly followed by a line feed ends a row as a
    line feed alone does. *)
Lemma scan_crlf (rest : string) (s : state) :
  inQuotes s = false ->
  scan (String cr (String lf rest)) s = scan (String lf rest) s.
Proof.
  intros Hq. rewrite (scan_lf rest s Hq), scan_cons, Hq. reflexivity.
Qed.

Lemma scan_crlf_witness :
  inQuotes init = false /\
  scan (String cr (String lf "a")) init = scan (String lf "a") init.
Proof. split; [reflexivity|]. apply scan_crlf. reflexivity. Defined.

(** The parser on the sample texts: a quoted field keeps its comma; rows
    end alike at a line feed and at a carriage return with line feed; a
    final line feed adds no row. *)
Lemma parseCSV_examples :
  parseCSV ("a," +:+ String dquote ("b,c" +:+ String dquote ",d"))
  = Some [["a"; "b,c"; "d"]] /\
  parseCSV ("a,b" +:+ String cr (String lf "c,d")) = Some [["a"; "b"]; ["c"; "d"]] /\
  parseCSV ("a,b" +:+ String lf "c,d") = Some [["a"; "b"]; ["c"; "d"]] /\
  parseCSV ("a,b" +:+ String lf "") = Some [["a"; "b"]].
Proof. repeat split. Qed.

(** ** Record construction *)

Lemma lookup_setProp_eq (obj : record) (h v : string) :
  h ≠ "__proto__" -> setProp obj h v !! h = Some v.
Proof.
  intros Hh. unfold setProp.
  destruct (String.eqb_spec h "__proto__"); [done|]. apply lookup_insert_eq.
Qed.

Lemma lookup_setProp_ne (obj : record) (x h v : string) :
  x ≠ h -> setProp obj x v !! h = obj !! h.
Proof.
  intros Hx. unfold setProp.
  destruct (String.eqb x "__proto__"); [done|]. by apply lookup_insert_ne.
Qed.

Lemma toObject_snoc (head r : list string) (x : string) :
  toObject (head ++ [x]) r
  = setProp (toObject head r) x (default "" (r !! length head)).
Proof.
  unfold toObject. rewrite imap_app, foldl_app. simpl. by rewrite Nat.add_0_r.
Qed.

Lemma toObject_last (head r : list string) (h : string) (i : nat) :
  h ≠ "__proto__" ->
  head !! i = Some h ->
  (forall j, i < j -> head !! j ≠ Some h) ->
  toObject head r !! h = Some (default "" (r !! i)).
Proof.
  intros Hh. revert i.
  induction head as [|x head IH] using rev_ind; intros i Hi Hlast; [done|].
  rewrite toObject_snoc.
  destruct (decide (i = length head)) as [->|Hne].
  - rewrite lookup_app_r, Nat.sub_diag in Hi by lia. simpl in Hi.
    injection Hi as ->. by rewrite lookup_setProp_eq.
  - assert (i < length head) as Hlt.
    { apply lookup_lt_Some in Hi. rewrite length_app in Hi. simpl in Hi. lia. }
    rewrite lookup_app_l in Hi by done.
    assert (x ≠ h) as Hx.
    { intros ->. apply (Hlast (length head)); [lia|].
      by rewrite lookup_app_r, Nat.sub_diag by lia. }
    rewrite lookup_setProp_ne by done.
    apply IH; [done|]. intros j Hj Hjh.
    apply (Hlast j Hj). rewrite lookup_app_l; [done|]. by eapply lookup_lt_Some.
Qed.

Lemma toObject_proto (head r : list string) : toObject head r !! "__proto__" = None.
Proof.
  induction head as [|x head IH] using rev_ind; [done|].
  rewrite toObject_snoc. unfold setProp.
  destruct (String.eqb_spec x "__proto__") as [->|Hx]; [done|].
  by rewrite lookup_insert_ne.
Qed.

(** C7, at an input where the code departs from it: the header row names
    [__proto__] at its first and third position.  Under that name the
    assignment [obj[h] = cell] stores nothing, so the record of the row [x],
    [y], [z] holds no cell of its own under it (reading it gives
    [Object.prototype], which the page shows as [[object Object]]), where
    the claim maps the name to the cell [z] of the last of the two
    positions; the header [b] is mapped to [y] as the claim says. *)
Theorem C7_proto_header_not_stored :
  (toObjects [["__proto__"; "b"; "__proto__"]; ["x"; "y"; "z"]]).1
  = ["__proto__"; "b"; "__proto__"] /\
  exists obj : record,
    (toObjects [["__proto__"; "b"; "__proto__"]; ["x"; "y"; "z"]]).2 = [obj] /\
    obj !! "__proto__" = None /\
    getProp obj "__proto__" = Some "[object Object]" /\
    getProp obj "b" = Some "y" /\
    Ui.renderTable ["__proto__"; "b"; "__proto__"] obj
    = (["__proto__"; "b"; "__proto__"], ["[object Object]"; "y"; "[object Object]"]).
Proof.
  split; [reflexivity|]. eexists. split; [reflexivity|].
  split; [apply toObject_proto|]. repeat split; vm_compute; reflexivity.
Qed.

(** ** Lower-casing and trimming twice *)

Lemma trimEnd_idemp (s : string) : trimEnd (trimEnd s) = trimEnd s.
Proof.
  induction s as [|c s IH]; [done|]. simpl.
  destruct (is_space c && negb (nonempty (trimEnd s))) eqn:Hc; [done|].
  simpl. by rewrite IH, Hc.
Qed.

Lemma trimStart_fixed (s : string) :
  match s with String c _ => is_space c | EmptyString => false end = false ->
  trimStart s = s.
Proof. destruct s as [|c s]; [done|]. simpl. by intros ->. Qed.

Lemma trimStart_head (s : string) :
  match trimStart s with String c _ => is_space c | EmptyString => false end = false.
Proof.
  induction s as [|c s IH]; [done|]. simpl.
  destruct (is_space c) eqn:Hc; [done|]. by simpl.
Qed.

Lemma trimEnd_head (s : string) :
  match s with String c _ => is_space c | EmptyString => false end = false ->
  match trimEnd s with String c _ => is_space c | EmptyString => false end = false.
Proof.
  destruct s as [|c s]; [done|]. simpl. intros Hc. rewrite Hc. simpl. done.
Qed.

Lemma trim_idemp (s : string) : trim (trim s) = trim s.
Proof.
  unfold trim.
  rewrite (trimStart_fixed (trimEnd (trimStart s))).
  - apply trimEnd_idemp.
  - apply trimEnd_head, trimStart_head.
Qed.

Lemma lower_char_idemp (c : ascii) : lower_char (lower_char c) = lower_char c.
Proof. by destruct c as [[] [] [] [] [] [] [] []]; vm_compute. Qed.

Lemma lower_char_space (c : ascii) : is_space (lower_char c) = is_space c.
Proof. by destruct c as [[] [] [] [] [] [] [] []]; vm_compute. Qed.

Lemma toLowerCase_idemp (s : string) : toLowerCase (toLowerCase s) = toLowerCase s.
Proof.
  induction s as [|c s IH]; [done|]. simpl. by rewrite lower_char_idemp, IH.
Qed.

Lemma toLowerCase_nonempty (s : string) : nonempty (toLowerCase s) = nonempty s.
Proof. by destruct s. Qed.

Lemma trimStart_toLowerCase (s : string) :
  trimStart (toLowerCase s) = toLowerCase (trimStart s).
Proof.
  induction s as [|c s IH]; [done|]. simpl. rewrite lower_char_space.
  by destruct (is_space c).
Qed.

Lemma trimEnd_toLowerCase (s : string) :
  trimEnd (toLowerCase s) = toLowerCase (trimEnd s).
Proof.
  induction s as [|c s IH]; [done|]. simpl.
  rewrite lower_char_space, IH, toLowerCase_nonempty.
  by destruct (is_space c && negb (nonempty (trimEnd s))).
Qed.

Lemma trim_toLowerCase (s : string) : trim (toLowerCase s) = toLowerCase (trim s).
Proof. unfold trim. by rewrite trimStart_toLowerCase, trimEnd_toLowerCase. Qed.

Lemma normalize_idemp (v : option string) :
  normalize (Some (normalize v)) = normalize v.
Proof. unfold normalize. simpl. apply trim_idemp. Qed.

(** ** What trimming does *)

Lemma blank_append (s t : string) : blank (s +:+ t) = blank s && blank t.
Proof.
  induction s as [|c s IH]; [done|].
  rewrite append_cons. simpl. by rewrite IH, andb_assoc.
Qed.

Lemma trimStart_blank (s : string) : blank s = true -> trimStart s = "".
Proof.
  induction s as [|c s IH]; [done|]. simpl.
  intros [-> Hs]%andb_true_iff. auto.
Qed.

Lemma trimStart_split (s : string) :
  exists pre, blank pre = true /\ s = pre +:+ trimStart s.
Proof.
  induction s as [|c s (pre & Hpre & Hs)]; [by exists ""|]. simpl.
  destruct (is_space c) eqn:Hc.
  - exists (String c pre). split; [simpl; by rewrite Hc|].
    by rewrite append_cons, <- Hs.
  - by exists "".
Qed.

Lemma trimEnd_split (s : string) :
  exists post, blank post = true /\ s = trimEnd s +:+ post.
Proof.
  induction s as [|c s (post & Hpost & Hs)]; [by exists ""|]. simpl.
  destruct (is_space c && negb (nonempty (trimEnd s))) eqn:Hc.
  - apply andb_true_iff in Hc as [Hc Hempty].
    apply negb_true_iff, nonempty_false in Hempty.
    rewrite Hempty, append_nil_l in Hs. subst post.
    exists (String c s). split; [simpl; by rewrite Hc|done].
  - exists post. split; [done|]. by rewrite append_cons, <- Hs.
Qed.

Lemma head_space_trimStart (s : string) : head_space (trimStart s) = false.
Proof.
  induction s as [|c s IH]; [done|]. simpl.
  destruct (is_space c) eqn:Hc; [done|]. by simpl.
Qed.

Lemma head_space_trimEnd (s : string) :
  head_space s = false -> head_space (trimEnd s) = false.
Proof.
  destruct s as [|c s]; [done|]. simpl. intros Hc. rewrite Hc. by simpl.
Qed.

Lemma last_space_trimEnd (s : string) : last_space (trimEnd s) = false.
Proof.
  induction s as [|c s IH]; [done|]. simpl.
  destruct (is_space c && negb (nonempty (trimEnd s))) eqn:Hc; [done|].
  simpl. destruct (trimEnd s) as [|d t]; [|done].
  simpl in Hc. by rewrite andb_true_r in Hc.
Qed.

Lemma trim_trims (raw : string) : trims_to raw (trim raw).
Proof.
  unfold trims_to, trim. split; [|split].
  - apply head_space_trimEnd, head_space_trimStart.
  - apply last_space_trimEnd.
  - destruct (trimStart_split raw) as (pre & Hpre & Hraw).
    destruct (trimEnd_split (trimStart raw)) as (post & Hpost & Hmid).
    exists pre, post. split; [done|]. split; [done|]. by rewrite <- Hmid.
Qed.

Lemma trimStart_append_blank (pre s : string) :
  blank pre = true -> trimStart (pre +:+ s) = trimStart s.
Proof.
  induction pre as [|c pre IH]; [done|]. simpl.
  intros [Hc Hpre]%andb_true_iff. rewrite Hc. auto.
Qed.

Lemma trimStart_fixed_head (s : string) : head_space s = false -> trimStart s = s.
Proof. destruct s as [|c s]; [done|]. simpl. by intros ->. Qed.

Lemma trimEnd_blank (s : string) : blank s = true -> trimEnd s = "".
Proof.
  induction s as [|c s IH]; [done|]. simpl.
  intros [Hc Hs]%andb_true_iff. by rewrite (IH Hs), Hc.
Qed.

Lemma trimEnd_append_blank (x post : string) :
  blank post = true -> trimEnd (x +:+ post) = trimEnd x.
Proof.
  intros Hpost. induction x as [|c x IH].
  - rewrite append_nil_l. by apply trimEnd_blank.
  - rewrite append_cons. simpl. by rewrite IH.
Qed.

Lemma trimEnd_fixed (x : string) : last_space x = false -> trimEnd x = x.
Proof.
  induction x as [|c x IH]; [done|]. simpl.
  destruct x as [|d x].
  - intros ->. done.
  - intros Hx. rewrite (IH Hx). simpl. by rewrite andb_false_r.
Qed.

Lemma trims_to_trim (raw x : string) : trims_to raw x -> trim raw = x.
Proof.
  intros (Hh & Hl & pre & post & Hpre & Hpost & ->). unfold trim.
  rewrite trimStart_append_blank by done.
  destruct x as [|c x].
  - rewrite append_nil_l, trimStart_blank by done. done.
  - rewrite trimStart_fixed_head by (by rewrite append_cons).
    rewrite trimEnd_append_blank by done. by apply trimEnd_fixed.
Qed.

(** [normalize] is trimming: its result is the value (a missing one being
    empty) without the white space at its two ends, and nothing else is. *)
Lemma normalize_spec (v : option string) (x : string) :
  normalize v = x <-> trims_to (default "" v) x.
Proof.
  unfold normalize. split.
  - intros <-. apply trim_trims.
  - apply trims_to_trim.
Qed.

Lemma normalize_blank (v : option string) :
  normalize v = "" <-> blank (default "" v) = true.
Proof.
  rewrite normalize_spec. split.
  - intros (_ & _ & pre & post & Hpre & Hpost & ->).
    by rewrite append_nil_l, blank_append, Hpre, Hpost.
  - intros Hb. split; [done|]. split; [done|].
    exists (default "" v), "". by rewrite append_nil_l, append_nil_r.
Qed.

Lemma normalize_same (v : option string) (selected : string) :
  normalize v = normalize (Some selected) <->
  same_trimmed (default "" v) selected.
Proof.
  split.
  - intros Heq. exists (normalize v). split; [by apply normalize_spec|].
    rewrite Heq. by apply (normalize_spec (Some selected)).
  - intros (c & Hv & Hs). apply normalize_spec in Hv.
    apply (normalize_spec (Some selected)) in Hs. congruence.
Qed.

Lemma lower_idemp (v : option string) : lower (Some (lower v)) = lower v.
Proof.
  unfold lower, normalize. simpl.
  by rewrite trim_toLowerCase, trim_idemp, toLowerCase_idemp.
Qed.

(** [lower] trims and then lower-cases. *)
Lemma lower_spec (h c : string) : trims_to h c -> lower (Some h) = toLowerCase c.
Proof. intros Ht. unfold lower, normalize. simpl. by rewrite (trims_to_trim h c Ht). Qed.

(** ** Column resolution *)

Lemma indexOf_Some (l : list string) (x : string) (i : nat) :
  indexOf l x = Some i <->
  l !! i = Some x /\ forall j, j < i -> l !! j ≠ Some x.
Proof.
  unfold indexOf. split.
  - intros Hf. destruct (list_find _ l) as [[i' y]|] eqn:Hl; [|done].
    simpl in Hf. injection Hf as ->.
    apply list_find_Some in Hl as (Hi & -> & Hbefore).
    split; [done|]. intros j Hj Hjx. by apply (Hbefore j x).
  - intros [Hi Hbefore].
    assert (list_find (fun y => y = x) l = Some (i, x)) as ->; [|done].
    apply list_find_Some. split; [done|]. split; [done|].
    intros j y Hjy Hj ->. by apply (Hbefore j).
Qed.

Lemma indexOf_None (l : list string) (x : string) :
  indexOf l x = None <-> x ∉ l.
Proof.
  unfold indexOf. rewrite fmap_None, list_find_None, Forall_forall.
  split; [intros Hl Hx; by apply (Hl x) | intros Hx y Hy ->; done].
Qed.

(** The alias walk finds nothing exactly when no alias is among the
    lower-cased headers. *)
Lemma tryAliases_None (headers lowerHeaders candidates : list string) :
  length lowerHeaders = length headers ->
  tryAliases headers lowerHeaders candidates = None <->
  forall c, c ∈ candidates -> c ∉ lowerHeaders.
Proof.
  intros Hlen. induction candidates as [|c cs IH]; simpl.
  - split; [intros _ c Hc; by apply elem_of_nil in Hc | done].
  - destruct (indexOf lowerHeaders c) as [i|] eqn:Hi.
    + apply indexOf_Some in Hi as [Hi _]. split.
      * intros Hnone. apply lookup_lt_Some in Hi. rewrite Hlen in Hi.
        apply lookup_lt_is_Some in Hi as [h Hh]. congruence.
      * intros Hall. exfalso. apply (Hall c); [left|].
        by eapply list_elem_of_lookup_2.
    + apply indexOf_None in Hi. rewrite IH. split.
      * intros Hall c' [->|Hc']%elem_of_cons; auto.
      * intros Hall c' Hc'. apply Hall. by right.
Qed.

(** The alias walk binds the header under the first position matching the
    first alias that matches at all. *)
Lemma tryAliases_Some (headers lowerHeaders candidates : list string) (h : string) :
  length lowerHeaders = length headers ->
  tryAliases headers lowerHeaders candidates = Some h <->
  exists pre c post i,
    candidates = pre ++ c :: post /\
    (forall c', c' ∈ pre -> c' ∉ lowerHeaders) /\
    lowerHeaders !! i = Some c /\
    (forall j, j < i -> lowerHeaders !! j ≠ Some c) /\
    headers !! i = Some h.
Proof.
  intros Hlen. induction candidates as [|c cs IH]; simpl.
  - split; [done|]. intros (pre & c & post & i & Hc & _). by destruct pre.
  - destruct (indexOf lowerHeaders c) as [i|] eqn:Hi.
    + apply indexOf_Some in Hi as [Hi Hfirst]. split.
      * intros Hh. exists [], c, cs, i. repeat split; try done.
        intros c' Hc'. by apply elem_of_nil in Hc'.
      * intros (pre & c' & post & i' & Hc & Hpre & Hi' & Hfirst' & Hh).
        destruct pre as [|p pre]; simpl in Hc;
          [injection Hc as <- <- | injection Hc as <- ->].
        -- assert (i = i') as ->; [|done].
           destruct (Nat.lt_trichotomy i i') as [Hlt|[->|Hlt]]; [|done|].
           ++ by destruct (Hfirst' i Hlt).
           ++ by destruct (Hfirst i' Hlt).
        -- exfalso. apply (Hpre c); [left|]. by eapply list_elem_of_lookup_2.
    + apply indexOf_None in Hi. rewrite IH. split.
      * intros (pre & c' & post & i & -> & Hpre & Hrest).
        exists (c :: pre), c', post, i. split; [done|]. split; [|done].
        intros c'' [->|Hc'']%elem_of_cons; auto.
      * intros (pre & c' & post & i & Hc & Hpre & Hi' & Hrest).
        destruct pre as [|p pre]; simpl in Hc;
          [injection Hc as <- <- | injection Hc as <- ->].
        -- exfalso. apply Hi. by eapply list_elem_of_lookup_2.
        -- exists pre, c', post, i. split; [done|]. split; [|done].
           intros c'' Hc''. apply Hpre. by right.
Qed.

Lemma partialMatch_Some (headers : list string) (k : role) (h : string) :
  partialMatch headers k = Some h <->
  exists i,
    headers !! i = Some h /\
    includes (lower (Some h)) (key k) = true /\
    forall j h', headers !! j = Some h' -> j < i ->
                 includes (lower (Some h')) (key k) = false.
Proof.
  unfold partialMatch. split.
  - intros Hf. destruct (list_find _ headers) as [[i y]|] eqn:Hl; [|done].
    simpl in Hf. injection Hf as ->.
    apply list_find_Some in Hl as (Hi & Hinc & Hbefore).
    exists i. split; [done|]. split; [done|].
    intros j h' Hj Hlt. specialize (Hbefore j h' Hj Hlt).
    by destruct (includes (lower (Some h')) (key k)).
  - intros (i & Hi & Hinc & Hbefore).
    assert (list_find (fun h => includes (lower (Some h)) (key k) = true) headers
            = Some (i, h)) as ->; [|done].
    apply list_find_Some. split; [done|]. split; [done|].
    intros j h' Hj Hlt. by rewrite (Hbefore j h' Hj Hlt).
Qed.

Lemma includes_nonempty (s t : string) :
  includes s t = true -> nonempty t = true -> nonempty s = true.
Proof. destruct s, t; simpl; try done. Qed.

(** A header found by the last resort is never the empty text, so the test
    [if (match)] lets it through. *)
Lemma partialMatch_truthy (headers : list string) (k : role) (h : string) :
  partialMatch headers k = Some h -> truthy (Some h) = true.
Proof.
  intros (i & _ & Hinc & _)%partialMatch_Some. simpl.
  destruct h as [|c h]; [|done].
  by destruct k.
Qed.

Lemma lowerHeaders_length (headers : list string) :
  length (map (fun h => lower (Some h)) headers) = length headers.
Proof. apply length_map. Qed.

(** What the code does with an alias that matches: the role is bound to the
    header under the first match of the first matching alias, the alias
    being compared as it is written in the table; a header with empty text
    is the exception, taken up by [C3_substring_fallback]. *)
Lemma resolveColumns_first_alias
    (headers : list string) (aliases : role -> list string) (k : role)
    (pre post : list string) (c h : string) (i : nat) :
  aliases k = pre ++ c :: post ->
  (forall c', c' ∈ pre -> c' ∉ map (fun h => lower (Some h)) headers) ->
  headers !! i = Some h ->
  lower (Some h) = c ->
  (forall j h', j < i -> headers !! j = Some h' -> lower (Some h') ≠ c) ->
  h ≠ "" ->
  resolveColumns headers aliases k = Some h.
Proof.
  intros Hal Hpre Hi Hc Hfirst Hne.
  assert (aliasResult headers aliases k = Some h) as Hres.
  { unfold aliasResult. apply tryAliases_Some; [apply lowerHeaders_length|].
    exists pre, c, post, i. repeat split; try done.
    - by rewrite list_lookup_fmap, Hi, <- Hc.
    - intros j Hj. rewrite list_lookup_fmap.
      destruct (headers !! j) as [h'|] eqn:Hj'; [|done].
      simpl. intros [= Heq]. by apply (Hfirst j h'). }
  unfold resolveColumns, resolveKey, fallbackRuns. rewrite Hres. simpl.
  by destruct h.
Qed.

Lemma resolveColumns_first_alias_witness :
  resolveColumns ["Name"; " STD "; "std"] COLUMN_ALIASES class = Some " STD ".
Proof.
  apply (resolveColumns_first_alias _ _ _ ["class"] ["grade"] "std" " STD " 1);
    try reflexivity.
  - intros c' ->%list_elem_of_singleton. compute_done.
  - intros j h' Hj Hh'. destruct j as [|[|j]]; [|lia|lia].
    injection Hh' as <-. by vm_compute.
  - done.
Defined.

(** With the headers [Std], [Section], [RollNo] and the aliases of the
    script, the three roles resolve to those three headers. *)
Lemma resolveColumns_default_example :
  resolveColumns ["Std"; "Section"; "RollNo"] COLUMN_ALIASES class = Some "Std" /\
  resolveColumns ["Std"; "Section"; "RollNo"] COLUMN_ALIASES division = Some "Section" /\
  resolveColumns ["Std"; "Section"; "RollNo"] COLUMN_ALIASES roll = Some "RollNo".
Proof. by vm_compute. Qed.

(** C2, at an input where the code departs from it: the alias [Std] is
    compared as written with the lower-cased header [std], so the header
    [Std] is not found and the class role stays unresolved, where lower-casing
    the alias as well binds it to [Std]. *)
Theorem C2_alias_compared_as_written :
  resolveColumns ["Std"; "Section"; "RollNo"] capitalAliases class = None /\
  specAliasResult ["Std"; "Section"; "RollNo"] capitalAliases class = Some "Std".
Proof. by vm_compute. Qed.

(** When every alias is written lower-case and trimmed, comparing it as
    written is comparing it lower-cased and trimmed. *)
Lemma specAliasResult_aliasResult
    (headers : list string) (aliases : role -> list string) (k : role) :
  (forall c, c ∈ aliases k -> lower (Some c) = c) ->
  specAliasResult headers aliases k = aliasResult headers aliases k.
Proof.
  intros Hal. unfold specAliasResult, aliasResult. cbv zeta. f_equal.
  induction (aliases k) as [|c cs IH]; [done|]. simpl.
  rewrite Hal by left. f_equal. apply IH. intros c' Hc'. apply Hal. by right.
Qed.

(** An alias found as written is found lower-cased and trimmed as well. *)
Lemma specAliasResult_None
    (headers : list string) (aliases : role -> list string) (k : role) :
  specAliasResult headers aliases k = None ->
  aliasResult headers aliases k = None.
Proof.
  unfold specAliasResult, aliasResult. cbv zeta.
  rewrite !tryAliases_None by apply lowerHeaders_length.
  intros Hnone c Hc Hin. apply (Hnone (lower (Some c))).
  - apply list_elem_of_fmap. by exists c.
  - apply list_elem_of_fmap in Hin as (h & -> & Hh).
    rewrite lower_idemp. apply list_elem_of_fmap. by exists h.
Qed.

(** C3 (amended): the last resort runs whenever no alias, lower-cased and
    trimmed, is among the lower-cased trimmed headers; when the aliases are
    written lower-case and trimmed, it runs exactly when no alias matched in
    that sense or the alias walk bound a header whose text is empty.  When
    it runs, it binds the role to the first header whose lower-cased trimmed
    form contains the role name, and otherwise the binding of the alias walk
    stands.  With the one header [StudentClassName] and the aliases of the
    script it runs for the class role and binds that header; with the
    headers [ STD ] and [my class] it does not run, the alias [std] having
    matched the first, trimmed and lower-cased.  Lower-casing and trimming a
    header is lower-casing it without the white space at its two ends. *)
Theorem C3_substring_fallback
    (headers : list string) (aliases : role -> list string) (k : role) :
  (specAliasResult headers aliases k = None ->
   fallbackRuns headers aliases k = true) /\
  ((forall c, c ∈ aliases k -> lower (Some c) = c) ->
   (fallbackRuns headers aliases k = true <->
      specAliasResult headers aliases k = None \/
      specAliasResult headers aliases k = Some "")) /\
  (forall h,
     partialMatch headers k = Some h <->
     exists i,
       headers !! i = Some h /\
       includes (lower (Some h)) (key k) = true /\
       forall j h', headers !! j = Some h' -> j < i ->
                    includes (lower (Some h')) (key k) = false) /\
  (forall h,
     fallbackRuns headers aliases k = true ->
     partialMatch headers k = Some h ->
     resolveColumns headers aliases k = Some h) /\
  (fallbackRuns headers aliases k = false ->
     resolveColumns headers aliases k = aliasResult headers aliases k) /\
  (forall h c, trims_to h c -> lower (Some h) = toLowerCase c) /\
  (fallbackRuns ["StudentClassName"] COLUMN_ALIASES class = true /\
   resolveColumns ["StudentClassName"] COLUMN_ALIASES class = Some "StudentClassName") /\
  (fallbackRuns [" STD "; "my class"] COLUMN_ALIASES class = false /\
   resolveColumns [" STD "; "my class"] COLUMN_ALIASES class = Some " STD ").
Proof.
  split; [|split; [|split; [|split; [|split; [|split; [|by vm_compute]]]]]].
  - intros Hnone%specAliasResult_None. unfold fallbackRuns. by rewrite Hnone.
  - intros Hal. rewrite (specAliasResult_aliasResult headers aliases k Hal).
    unfold fallbackRuns.
    destruct (aliasResult headers aliases k) as [[|c h]|]; simpl;
      intuition congruence.
  - apply partialMatch_Some.
  - intros h Hrun Hm. unfold resolveColumns, resolveKey. rewrite Hrun, Hm.
    by rewrite (partialMatch_truthy headers k h Hm).
  - intros Hrun. unfold resolveColumns, resolveKey. by rewrite Hrun.
  - apply lower_spec.
Qed.

Lemma C3_substring_fallback_witness :
  (specAliasResult ["Name"; "My Class "; "class2"] COLUMN_ALIASES class = None /\
   fallbackRuns ["Name"; "My Class "; "class2"] COLUMN_ALIASES class = true) /\
  ((forall c, c ∈ COLUMN_ALIASES class -> lower (Some c) = c) /\
   (fallbackRuns [" STD "; "My Class"] COLUMN_ALIASES class = true <->
      specAliasResult [" STD "; "My Class"] COLUMN_ALIASES class = None \/
      specAliasResult [" STD "; "My Class"] COLUMN_ALIASES class = Some "")) /\
  (fallbackRuns ["Name"; "My Class "; "class2"] COLUMN_ALIASES class = true /\
   partialMatch ["Name"; "My Class "; "class2"] class = Some "My Class " /\
   resolveColumns ["Name"; "My Class "; "class2"] COLUMN_ALIASES class
   = Some "My Class ") /\
  (fallbackRuns ["Grade"; "My Class"] COLUMN_ALIASES class = false /\
   resolveColumns ["Grade"; "My Class"] COLUMN_ALIASES class
   = aliasResult ["Grade"; "My Class"] COLUMN_ALIASES class).
Proof.
  assert (forall c, c ∈ COLUMN_ALIASES class -> lower (Some c) = c) as Hal.
  { intros c Hc. change (c ∈ ["class"; "std"; "grade"]) in Hc.
    repeat (apply elem_of_cons in Hc as [->|Hc]; [reflexivity|]).
    by apply elem_of_nil in Hc. }
  split; [|split; [|split]].
  - split; [reflexivity|].
    apply (proj1 (C3_substring_fallback
             ["Name"; "My Class "; "class2"] COLUMN_ALIASES class)).
    reflexivity.
  - split; [exact Hal|].
    exact (proj1 (proj2 (C3_substring_fallback
             [" STD "; "My Class"] COLUMN_ALIASES class)) Hal).
  - split; [reflexivity | split; [reflexivity|]].
    apply (proj1 (proj2 (proj2 (proj2 (C3_substring_fallback
             ["Name"; "My Class "; "class2"] COLUMN_ALIASES class)))));
      reflexivity.
  - split; [reflexivity|].
    apply (proj1 (proj2 (proj2 (proj2 (proj2 (C3_substring_fallback
             ["Grade"; "My Class"] COLUMN_ALIASES class))))));
      reflexivity.
Defined.

(** The alias [""] matches the empty first header, and still the last
    resort runs and binds the class role to another header. *)
Lemma C3_substring_fallback_counterexample :
  (exists c, c ∈ [""] /\ c ∈ map (fun h => lower (Some h)) [""; "myclass"]) /\
  fallbackRuns [""; "myclass"] (fun _ => [""]) class = true /\
  resolveColumns [""; "myclass"] (fun _ => [""]) class = Some "myclass".
Proof.
  split; [|by vm_compute].
  exists "". split; [by left|]. by left.
Qed.

(** ** Sets and sorting *)

Lemma elem_of_foldl_Set_add (l acc : list string) (x : string) :
  x ∈ foldl Set_add acc l <-> x ∈ acc \/ x ∈ l.
Proof.
  revert acc. induction l as [|y l IH]; intros acc; simpl.
  - rewrite elem_of_nil. tauto.
  - rewrite IH, elem_of_cons. unfold Set_add.
    destruct (decide (y ∈ acc)) as [Hy|Hy].
    + split; [tauto|]. intros [?|[->|?]]; tauto.
    + rewrite elem_of_app, list_elem_of_singleton. tauto.
Qed.


Lemma elem_of_Set_of (l : list string) (x : string) : x ∈ Set_of l <-> x ∈ l.
Proof. unfold Set_of. rewrite elem_of_foldl_Set_add, elem_of_nil. tauto. Qed.


Section SortFacts.
Context {A : Type} (compareFn : A -> A -> number).

Lemma insert_sorted_perm (x : A) (l : list A) :
  insert_sorted compareFn x l ≡ₚ x :: l.
Proof.
  induction l as [|y l IH]; simpl; [done|].
  destruct (sign (compareFn x y)); try done.
  all: by rewrite IH, Permutation_swap.
Qed.

Lemma foldl_insert_sorted_perm (l acc : list A) :
  foldl (fun acc x => insert_sorted compareFn x acc) acc l ≡ₚ acc ++ l.
Proof.
  revert acc. induction l as [|x l IH]; intros acc; simpl.
  - by rewrite app_nil_r.
  - rewrite IH, insert_sorted_perm. simpl. apply Permutation_middle.
Qed.

(** Whatever the comparator, sorting rearranges and nothing more. *)
Lemma sort_perm (l : list A) : sort compareFn l ≡ₚ l.
Proof. unfold sort. by rewrite foldl_insert_sorted_perm. Qed.

(** Sorting elements on which the comparator agrees with a transitive
    order [R]. *)
Context (R : A -> A -> Prop) (P : A -> Prop).
Hypothesis R_trans : forall x y z, R x y -> R y z -> R x z.
Hypothesis before : forall x y, P x -> P y -> sign (compareFn x y) = Lt -> R x y.
Hypothesis not_before : forall x y, P x -> P y -> sign (compareFn x y) ≠ Lt -> R y x.

Lemma insert_sorted_sorted (x : A) (l : list A) :
  P x -> Forall P l -> StronglySorted R l ->
  StronglySorted R (insert_sorted compareFn x l).
Proof.
  intros Hx Hl Hs. induction Hs as [|y l Hs IH Hy]; simpl.
  - repeat constructor.
  - apply Forall_cons in Hl as [Hpy Hl].
    destruct (sign (compareFn x y)) eqn:Hc.
    + constructor; [by apply IH|].
      rewrite insert_sorted_perm. constructor; [|done].
      apply not_before; [done..|]. by rewrite Hc.
    + assert (R x y) as Hxy by by apply before.
      constructor; [by constructor|]. constructor; [done|].
      eapply Forall_impl; [exact Hy|]. intros z Hz. by eapply R_trans.
    + constructor; [by apply IH|].
      rewrite insert_sorted_perm. constructor; [|done].
      apply not_before; [done..|]. by rewrite Hc.
Qed.

Lemma foldl_insert_sorted_sorted (l acc : list A) :
  Forall P l -> Forall P acc -> StronglySorted R acc ->
  StronglySorted R (foldl (fun acc x => insert_sorted compareFn x acc) acc l).
Proof.
  revert acc. induction l as [|x l IH]; intros acc Hl Hacc Hs; [done|].
  apply Forall_cons in Hl as [Hx Hl]. simpl. apply IH; [done| |].
  - rewrite insert_sorted_perm. by constructor.
  - by apply insert_sorted_sorted.
Qed.

Lemma sort_sorted (l : list A) : Forall P l -> StronglySorted R (sort compareFn l).
Proof.
  intros Hl. apply foldl_insert_sorted_sorted; [done|constructor|constructor].
Qed.

End SortFacts.

(** ** Numbers *)




(** ** Unique sorted values *)

Section UniqueFacts.
Context `{Host}.

Lemma elem_of_uniqueSorted (values : list (option string)) (x : string) :
  x ∈ uniqueSorted values <->
  x ≠ "" /\ exists v, v ∈ values /\ normalize v = x.
Proof.
  unfold uniqueSorted. rewrite sort_perm, elem_of_Set_of, list_elem_of_filter.
  rewrite list_elem_of_fmap, nonempty_true.
  split.
  - intros [Hne (v & -> & Hv)]. eauto.
  - intros [Hne (v & Hv & <-)]. eauto.
Qed.






End UniqueFacts.



(** ** The cascade *)

Lemma same_true (r : record) (k : option string) (selected : string) :
  same r k selected = true <-> normalize (prop r k) = normalize (Some selected).
Proof. unfold same. apply String.eqb_eq. Qed.

(** The comparison of the script holds exactly when the cell and the
    selection are the same without the white space at their ends. *)
Lemma same_trimmed_iff (r : record) (k : option string) (selected : string) :
  same r k selected = true <-> same_trimmed (cell r k) selected.
Proof. rewrite same_true. apply normalize_same. Qed.

Lemma same3_matches (idx : role -> option string) (cls div roll_ : string)
    (r : record) :
  same r (idx class) cls && same r (idx division) div && same r (idx roll) roll_ = true
  <-> matches idx cls div roll_ r.
Proof. unfold matches. rewrite !andb_true_iff, !same_trimmed_iff. tauto. Qed.

Lemma findRecord_Some (rows : list record) (idx : role -> option string)
    (cls div roll_ : string) (r : record) :
  findRecord rows idx cls div roll_ = Some r <->
  exists i,
    rows !! i = Some r /\ matches idx cls div roll_ r /\
    forall j r', rows !! j = Some r' -> j < i -> ~ matches idx cls div roll_ r'.
Proof.
  unfold findRecord. split.
  - intros Hf. destruct (list_find _ rows) as [[i y]|] eqn:Hl; [|done].
    simpl in Hf. injection Hf as ->.
    apply list_find_Some in Hl as (Hi & Hm & Hbefore).
    exists i. split; [done|]. split; [by apply same3_matches|].
    intros j r' Hj Hlt Hm'. apply (Hbefore j r' Hj Hlt). by apply same3_matches.
  - intros (i & Hi & Hm & Hbefore).
    pose (found := list_find
      (fun r => same r (idx class) cls && same r (idx division) div
                && same r (idx roll) roll_ = true) rows).
    assert (found = Some (i, r)) as Hfound.
    { apply list_find_Some. split; [done|]. split; [by apply same3_matches|].
      intros j r' Hj Hlt Hm'. apply (Hbefore j r' Hj Hlt). by apply same3_matches. }
    unfold found in Hfound. by rewrite Hfound.
Qed.

Lemma findRecord_None (rows : list record) (idx : role -> option string)
    (cls div roll_ : string) :
  findRecord rows idx cls div roll_ = None <->
  forall r, r ∈ rows -> ~ matches idx cls div roll_ r.
Proof.
  unfold findRecord. rewrite fmap_None, list_find_None, Forall_forall.
  split; intros Hall r Hr Hm; apply (Hall r Hr); by apply same3_matches.
Qed.

(** C1: on the three records of the example, with the roles resolved to the
    headers [class], [div] and [roll], the divisions of class 10 are A and B
    (on a host for which A and B are no numbers and A collates before B),
    the rolls of class 10, division A are 1, the search for 10, B, 2 returns
    the second record and the search for 10, A, 2 finds nothing; in general
    the search returns the first record, in the order of the rows, whose
    three cells equal the three selections, both sides taken without the
    white space at their two ends and compared as they are (so [b] does not
    match [B], while the cells [ 10 ], [B ] and tab [2] match the selections
    [10 ], [ B] and [2], and the record is returned as it is in the rows). *)
Theorem C1_cascade (host : Host) :
  (exampleIdx class = Some "class" /\ exampleIdx division = Some "div" /\
   exampleIdx roll = Some "roll") /\
  (isNaN (Number "A") = true -> isNaN (Number "B") = true ->
   sign (localeCompare "A" "B") = Lt -> sign (localeCompare "B" "A") = Gt ->
   divisionValues exampleRows exampleIdx "10" = ["A"; "B"]) /\
  rollValues exampleRows exampleIdx "10" "A" = ["1"] /\
  (exampleRows !! 1 = Some (toObject ["class"; "div"; "roll"] ["10"; "B"; "2"]) /\
   findRecord exampleRows exampleIdx "10" "B" "2" = exampleRows !! 1 /\
   onRollChange exampleRows exampleIdx "10" "B" "2"
   = Card (toObject ["class"; "div"; "roll"] ["10"; "B"; "2"])) /\
  (findRecord exampleRows exampleIdx "10" "A" "2" = None /\
   onRollChange exampleRows exampleIdx "10" "A" "2" = NoMatch) /\
  findRecord exampleRows exampleIdx "10" "b" "2" = None /\
  (forall rows idx cls div roll_ r,
     findRecord rows idx cls div roll_ = Some r <->
     exists i,
       rows !! i = Some r /\ matches idx cls div roll_ r /\
       forall j r', rows !! j = Some r' -> j < i -> ~ matches idx cls div roll_ r') /\
  (forall rows idx cls div roll_,
     findRecord rows idx cls div roll_ = None <->
     forall r, r ∈ rows -> ~ matches idx cls div roll_ r) /\
  findRecord [toObject ["class"; "div"; "roll"] ["10"; "A"; "1"];
              toObject ["class"; "div"; "roll"] [" 10 "; "B "; String tab "2"];
              toObject ["class"; "div"; "roll"] ["10"; "B"; "2"]]
             exampleIdx "10 " " B" "2"
  = Some (toObject ["class"; "div"; "roll"] [" 10 "; "B "; String tab "2"]).
Proof.
  split; [by vm_compute|]. split.
  { intros HA HB HAB HBA. unfold divisionValues.
    change (nonempty "10") with true. cbv iota beta delta [negb].
    assert (map (fun r : record => prop r (exampleIdx division))
              (filter (fun r : record => same r (exampleIdx class) "10" = true)
                 exampleRows)
            = [Some "A"; Some "B"]) as -> by by vm_compute.
    unfold uniqueSorted. change (Set_of _) with ["A"; "B"].
    unfold sort. simpl. unfold compareValues. rewrite HB. simpl.
    by rewrite HBA. }
  split.
  { unfold rollValues.
    change (nonempty "10") with true. change (nonempty "A") with true.
    cbv iota beta delta [negb orb].
    assert (map (fun r : record => prop r (exampleIdx roll))
              (filter (fun r : record =>
                         same r (exampleIdx class) "10"
                         && same r (exampleIdx division) "A" = true)
                 exampleRows)
            = [Some "1"]) as -> by by vm_compute.
    reflexivity. }
  split; [repeat split; vm_compute; reflexivity|].
  split; [split; vm_compute; reflexivity|].
  split; [vm_compute; reflexivity|].
  split; [apply findRecord_Some|].
  split; [apply findRecord_None | vm_compute; reflexivity].
Qed.

Lemma C1_cascade_witness :
  (isNaN (@Number exampleHost "A") = true /\
   isNaN (@Number exampleHost "B") = true /\
   sign (@localeCompare exampleHost "A" "B") = Lt /\
   sign (@localeCompare exampleHost "B" "A") = Gt /\
   @divisionValues exampleHost exampleRows exampleIdx "10" = ["A"; "B"]) /\
  findRecord [toObject ["class"; "div"; "roll"] ["10"; "A"; "1"];
              toObject ["class"; "div"; "roll"] [" 10 "; "B "; String tab "2"];
              toObject ["class"; "div"; "roll"] ["10"; "B"; "2"]]
             exampleIdx "10 " " B" "2"
  = Some (toObject ["class"; "div"; "roll"] [" 10 "; "B "; String tab "2"]).
Proof.
  split.
  - split; [reflexivity | split; [reflexivity | split; [reflexivity | split; [reflexivity|]]]].
    apply (proj1 (proj2 (C1_cascade exampleHost))); reflexivity.
  - exact (proj2 (proj2 (proj2 (proj2 (proj2 (proj2 (proj2 (proj2
             (C1_cascade exampleHost))))))))).
Defined.

(** * Further properties *)

(** ** Reading back a written sheet *)

Lemma set_quotes_back (s : state) (f : string) :
  inQuotes s = false ->
  set_inQuotes false (set_field f (set_inQuotes true s)) = set_field f s.
Proof. destruct s as [o r f0 q]. simpl. by intros ->. Qed.

Lemma scan_escaped (body : string) :
  forall (rest : string) (s : state),
    inQuotes s = true -> starts_with dquote rest = false ->
    scan (escapeQuotes body +:+ String dquote rest) s
    = scan rest (set_inQuotes false (set_field (field s +:+ body) s)).
Proof.
  induction body as [|c body IH]; intros rest s Hq Hrest.
  - rewrite append_nil_l, append_nil_r, set_field_id, scan_cons.
    change (Ascii.eqb dquote dquote) with true. cbv iota. rewrite Hq.
    destruct rest as [|c2 rest']; [done|].
    simpl in Hrest. by rewrite Hrest.
  - simpl escapeQuotes. destruct (Ascii.eqb c dquote) eqn:Hc.
    + apply Ascii.eqb_eq in Hc as ->.
      rewrite !append_cons, scan_cons.
      change (Ascii.eqb dquote dquote) with true. cbv iota. rewrite Hq. simpl andb.
      cbv iota. rewrite IH by done. simpl. by rewrite snoc_append.
    + rewrite append_cons, scan_cons, Hc, Hq. simpl andb. cbv iota.
      rewrite IH by done. simpl. by rewrite snoc_append.
Qed.

Lemma scan_quoteCell (body rest : string) (s : state) :
  inQuotes s = false -> starts_with dquote rest = false ->
  scan (quoteCell body +:+ rest) s = scan rest (set_field (field s +:+ body) s).
Proof.
  intros Hq Hrest. unfold quoteCell.
  rewrite append_cons, append_assoc, append_cons, append_nil_l, scan_cons.
  change (Ascii.eqb dquote dquote) with true. cbv iota. rewrite Hq. simpl andb.
  assert (scan (escapeQuotes body +:+ String dquote rest)
               (set_inQuotes (negb false) s)
          = scan rest (set_field (field s +:+ body) s)) as Hin.
  { rewrite scan_escaped by done. simpl field. by rewrite set_quotes_back. }
  by destruct (escapeQuotes body +:+ String dquote rest).
Qed.

Lemma scan_writeCell (body rest : string) (s : state) :
  inQuotes s = false -> starts_with dquote rest = false ->
  scan (writeCell body +:+ rest) s = scan rest (set_field (field s +:+ body) s).
Proof.
  intros Hq Hrest. unfold writeCell. destruct (plain body) eqn:Hp.
  - by apply scan_plain.
  - by apply scan_quoteCell.
Qed.

Lemma scan_separator (sep : ascii) (rest : string) (s : state) :
  is_separator sep -> inQuotes s = false ->
  scan (String sep rest) s = scan rest (end_field s).
Proof. intros [-> | ->] Hq; rewrite scan_cons, Hq; reflexivity. Qed.

Lemma scan_cr (rest : string) (s : state) :
  inQuotes s = false -> starts_with lf rest = false ->
  scan (String cr rest) s = scan rest (if pending s then end_row s else s).
Proof.
  intros Hq Hrest. rewrite scan_cons, Hq.
  change (Ascii.eqb cr dquote) with false.
  destruct rest as [|c2 rest']; [done|].
  simpl in Hrest. cbn. by rewrite Hrest.
Qed.

Lemma scan_linebreak (nl rest : string) (s : state) :
  is_linebreak nl -> inQuotes s = false -> starts_with lf rest = false ->
  scan (nl +:+ rest) s = scan rest (if pending s then end_row s else s).
Proof.
  intros [-> | [-> | ->]] Hq Hrest; rewrite !append_cons, append_nil_l.
  - by apply scan_lf.
  - rewrite scan_crlf by done. by apply scan_lf.
  - by apply scan_cr.
Qed.

Lemma scan_written_cells (sep : ascii) (cells : list string) :
  forall (rest : string) (o : list (list string)) (r : list string),
    is_separator sep -> cells ≠ [] -> starts_with dquote rest = false ->
    scan (join (String sep "") (map writeCell cells) +:+ rest) (State o r "" false)
    = scan rest (State o (r ++ removelast cells) (List.last cells "") false).
Proof.
  induction cells as [|x cells IH]; intros rest o r Hsep Hne Hrest; [done|].
  destruct cells as [|y cells].
  - simpl. rewrite scan_writeCell by done. simpl. by rewrite app_nil_r.
  - change (join (String sep "") (map writeCell (x :: y :: cells)))
      with (writeCell x +:+ String sep ""
            +:+ join (String sep "") (map writeCell (y :: cells))).
    rewrite !append_assoc, append_cons, append_nil_l.
    rewrite scan_writeCell; [|done|by destruct Hsep as [-> | ->]].
    rewrite scan_separator by done.
    unfold end_field. simpl. rewrite IH by done.
    change (removelast (x :: y :: cells)) with (x :: removelast (y :: cells)).
    change (List.last (x :: y :: cells) "") with (List.last (y :: cells) "").
    by rewrite <- app_assoc.
Qed.

Lemma plain_starts_lf (cell : string) :
  plain cell = true -> starts_with lf cell = false.
Proof.
  destruct cell as [|c cell]; [done|]. simpl. intros [Hc _]%andb_true_iff.
  unfold plain_char in Hc. apply negb_true_iff in Hc.
  by repeat (apply orb_false_iff in Hc as [Hc ?]).
Qed.

Lemma starts_with_append (c : ascii) (s t : string) :
  nonempty s = true -> starts_with c (s +:+ t) = starts_with c s.
Proof. by destruct s. Qed.

Lemma writeCell_starts (cell : string) : starts_with lf (writeCell cell) = false.
Proof.
  unfold writeCell. destruct (plain cell) eqn:Hp; [|done].
  by apply plain_starts_lf.
Qed.

Lemma writeCell_nonempty (cell : string) :
  cell ≠ "" -> nonempty (writeCell cell) = true.
Proof.
  intros Hne. unfold writeCell. destruct (plain cell); [|done]. by destruct cell.
Qed.

(** The text of a visible row does not begin with a line feed. *)
Lemma written_row_starts (sep : ascii) (r : list string) (rest : string) :
  is_separator sep -> visible r ->
  starts_with lf (join (String sep "") (map writeCell r) +:+ rest) = false.
Proof.
  intros Hsep [Hne Hne']. destruct r as [|x r]; [done|].
  destruct r as [|y r].
  - simpl map. simpl join.
    rewrite starts_with_append; [apply writeCell_starts|].
    apply writeCell_nonempty. by intros ->.
  - change (join (String sep "") (map writeCell (x :: y :: r)))
      with (writeCell x +:+ String sep ""
            +:+ join (String sep "") (map writeCell (y :: r))).
    rewrite !append_assoc.
    destruct (writeCell x) as [|c w] eqn:Hw.
    + rewrite append_nil_l, append_cons. by destruct Hsep as [-> | ->].
    + pose proof (writeCell_starts x) as Hx. rewrite Hw in Hx.
      by rewrite append_cons.
Qed.

Lemma scan_written (sep : ascii) (nl : string) (trailing : bool)
    (m : list (list string)) :
  forall o : list (list string),
    is_separator sep -> is_linebreak nl -> Forall visible m ->
    scan (writeCsv sep nl trailing m) (State o [] "" false) = o ++ m.
Proof.
  intros o Hsep Hnl. revert o. unfold writeCsv.
  assert (starts_with dquote nl = false) as Hnlq
    by by destruct Hnl as [-> | [-> | ->]].
  assert (forall o, scan (if trailing then nl else "") (State o [] "" false) = o)
    as Htail.
  { intros o. destruct trailing; [|done].
    rewrite <- (append_nil_r nl), scan_linebreak by done. done. }
  induction m as [|r m IH]; intros o Hv.
  - simpl join. rewrite append_nil_l, Htail. by rewrite app_nil_r.
  - apply Forall_cons in Hv as [Hr Hv].
    pose proof (visible_pending r o Hr) as Hpend.
    assert (removelast r ++ [List.last r ""] = r) as Hr'.
    { symmetry. apply app_removelast_last. apply Hr. }
    destruct m as [|r2 m].
    + simpl map. simpl join.
      rewrite scan_written_cells; [|done|apply Hr|by destruct trailing].
      rewrite app_nil_l. destruct trailing.
      * rewrite <- (append_nil_r nl), scan_linebreak by done.
        rewrite Hpend. unfold end_row. simpl. by rewrite Hr'.
      * simpl. unfold finish. rewrite Hpend. simpl. by rewrite Hr'.
    + change (join nl (map (fun r => join (String sep "") (map writeCell r))
                          (r :: r2 :: m)))
        with (join (String sep "") (map writeCell r) +:+ nl
              +:+ join nl (map (fun r => join (String sep "") (map writeCell r))
                              (r2 :: m))).
      rewrite !append_assoc.
      rewrite scan_written_cells; [|done|apply Hr|].
      2:{ destruct Hnl as [-> | [-> | ->]]; reflexivity. }
      rewrite app_nil_l, scan_linebreak; [|done|done|].
      2:{ apply Forall_cons in Hv as [Hr2 _].
          destruct m as [|r3 m].
          - simpl map. simpl join. by apply written_row_starts.
          - change (join nl (map (fun r => join (String sep "") (map writeCell r))
                                (r2 :: r3 :: m)))
              with (join (String sep "") (map writeCell r2) +:+ nl
                    +:+ join nl (map (fun r => join (String sep "") (map writeCell r))
                                    (r3 :: m))).
            rewrite !append_assoc. by apply written_row_starts. }
      rewrite Hpend. unfold end_row. simpl. rewrite Hr'.
      rewrite IH by done. by rewrite <- app_assoc.
Qed.

(** ** What the parser's rows look like *)

Lemma pushed_visible (s : state) :
  pending s = true -> visible (row s ++ [field s]).
Proof.
  unfold pending, visible. destruct (row s) as [|x r]; simpl.
  - rewrite orb_false_r. by destruct (field s).
  - intros _. split; [done|]. by destruct r.
Qed.

Lemma step_rows_visible (text : string) (i : nat) (s : state) :
  Forall visible (out s) -> Forall visible (out (step text i s).2).
Proof.
  intros Hs. unfold step.
  repeat (case_match; simpl; try done).
  apply Forall_app. split; [done|]. apply Forall_singleton.
  by apply pushed_visible.
Qed.

Lemma loop_rows_visible (fuel : nat) (text : string) :
  forall (i : nat) (s s' : state),
    loop fuel text i s = Some s' -> Forall visible (out s) -> Forall visible (out s').
Proof.
  induction fuel as [|fuel IH]; intros i s s' Hl Hs; simpl in Hl.
  - destruct (i <? String.length text); [done|]. by injection Hl as <-.
  - destruct (i <? String.length text); [|by injection Hl as <-].
    pose proof (step_rows_visible text i s Hs) as Hstep.
    destruct (step text i s) as [i1 s1]. eauto.
Qed.

Lemma parsed_rows_visible (text : string) (m : list (list string)) :
  parseCSV text = Some m -> Forall visible m.
Proof.
  unfold parseCSV. intros Hp.
  destruct (loop (String.length text) text 0 init) as [s|] eqn:Hl; [|done].
  injection Hp as <-.
  assert (Forall visible (out s)) as Hs
    by (apply (loop_rows_visible _ _ _ _ _ Hl); constructor).
  unfold finish. destruct (pending s) eqn:Hpend; [|done].
  apply Forall_app. split; [done|]. apply Forall_singleton.
  by apply pushed_visible.
Qed.

Lemma plain_snoc (f : string) (c : ascii) :
  plain (snoc f c) = plain f && plain_char c.
Proof.
  unfold snoc. induction f as [|d f IH].
  - rewrite append_nil_l. simpl. by rewrite andb_true_r.
  - rewrite append_cons. simpl. rewrite IH. by rewrite andb_assoc.
Qed.

Lemma has_char_get (c : ascii) (text : string) (i : nat) (d : ascii) :
  has_char c text = false -> String.get i text = Some d -> Ascii.eqb d c = false.
Proof.
  revert i. induction text as [|e text IH]; intros i Hc Hd; [done|].
  simpl in Hc. apply orb_false_iff in Hc as [He Hc].
  destruct i as [|i]; simpl in Hd.
  - by injection Hd as <-.
  - by eapply IH.
Qed.

Lemma step_all_plain (text : string) (i : nat) (s : state) :
  has_char dquote text = false -> all_plain s -> all_plain (step text i s).2.
Proof.
  intros Hnq (Hq & Hf & Hr & Ho). unfold step, charAt.
  destruct (String.get i text) as [c|] eqn:Hc; [|done].
  rewrite (has_char_get dquote text i c Hnq Hc), Hq. simpl negb. simpl andb.
  assert (Forall (fun cell => plain cell = true) (row s ++ [field s])) as Hrow.
  { apply Forall_app. split; [done|]. by apply Forall_singleton. }
  destruct (Ascii.eqb c comma || Ascii.eqb c tab) eqn:Hsep.
  { simpl. by repeat split. }
  destruct (Ascii.eqb c cr || Ascii.eqb c lf) eqn:Hnl.
  { simpl. destruct (pending s); [|done]. simpl. repeat split; try done.
    apply Forall_app. split; [done|]. by apply Forall_singleton. }
  simpl. repeat split; try done.
  simpl. rewrite plain_snoc, Hf. simpl. unfold plain_char.
  apply orb_false_iff in Hsep as [-> ->]. apply orb_false_iff in Hnl as [-> ->].
  by rewrite (has_char_get dquote text i c Hnq Hc).
Qed.

Lemma loop_all_plain (fuel : nat) (text : string) :
  has_char dquote text = false ->
  forall (i : nat) (s s' : state),
    loop fuel text i s = Some s' -> all_plain s -> all_plain s'.
Proof.
  intros Hnq. induction fuel as [|fuel IH]; intros i s s' Hl Hs; simpl in Hl.
  - destruct (i <? String.length text); [done|]. by injection Hl as <-.
  - destruct (i <? String.length text); [|by injection Hl as <-].
    pose proof (step_all_plain text i s Hnq Hs) as Hstep.
    destruct (step text i s) as [i1 s1]. eauto.
Qed.

(** X1: a sheet written cell by cell (a cell between quotes with its quotes
    doubled when it holds a comma, tab, quote or line break, as it is
    otherwise), with commas or tabs between cells, with line feeds, carriage
    returns or both between rows, and with or without a final line break,
    parses back to the same matrix, whatever the cells hold, provided no row
    is empty or the single empty cell. *)
Theorem parseCSV_reads_written_sheet
    (sep : ascii) (nl : string) (trailing : bool) (m : list (list string)) :
  is_separator sep -> is_linebreak nl -> Forall visible m ->
  parseCSV (writeCsv sep nl trailing m) = Some m.
Proof.
  intros Hsep Hnl Hv. rewrite parseCSV_scan. unfold init.
  by rewrite scan_written.
Qed.

Lemma parseCSV_reads_written_sheet_witness :
  is_separator tab /\
  is_linebreak (String cr (String lf "")) /\
  Forall visible [["a,b"; ""; String dquote "q"]; [String lf "x"; "plain"]] /\
  parseCSV (writeCsv tab (String cr (String lf "")) true
              [["a,b"; ""; String dquote "q"]; [String lf "x"; "plain"]])
  = Some [["a,b"; ""; String dquote "q"]; [String lf "x"; "plain"]].
Proof.
  assert (is_separator tab) as Hsep by (by right).
  assert (is_linebreak (String cr (String lf ""))) as Hnl by (right; by left).
  assert (Forall visible [["a,b"; ""; String dquote "q"]; [String lf "x"; "plain"]])
    as Hv by (repeat constructor; discriminate).
  exact (conj Hsep (conj Hnl (conj Hv
           (parseCSV_reads_written_sheet _ _ true _ Hsep Hnl Hv)))).
Defined.

(** X2: a text made of one quoted field parses to the one row holding the
    content of the field, quotes, commas, tabs and line breaks included; the
    quoted empty field alone gives no row. *)
Theorem parseCSV_quoted_field (body : string) :
  parseCSV (quoteCell body) = Some (if nonempty body then [[body]] else []).
Proof.
  rewrite parseCSV_scan, <- (append_nil_r (quoteCell body)).
  rewrite scan_quoteCell by done. simpl scan.
  unfold finish, pending. simpl. rewrite orb_false_r. by destruct body.
Qed.

(** X3: no row the parser returns is empty, and none is the single empty
    cell: a row is emitted only with a non-empty field or with an earlier
    cell. *)
Theorem parseCSV_rows_visible (text : string) :
  exists m, parseCSV text = Some m /\ Forall visible m.
Proof.
  rewrite parseCSV_scan. eexists. split; [done|].
  apply (parsed_rows_visible text). apply parseCSV_scan.
Qed.

(** X4: what the parser returns is stable under writing and parsing again:
    the matrix parsed from any text, written out in any of the dialects of
    X1, parses to that same matrix. *)
Theorem parseCSV_written_again
    (text : string) (m : list (list string))
    (sep : ascii) (nl : string) (trailing : bool) :
  is_separator sep -> is_linebreak nl ->
  parseCSV text = Some m ->
  parseCSV (writeCsv sep nl trailing m) = Some m.
Proof.
  intros Hsep Hnl Hm. rewrite parseCSV_scan. unfold init.
  rewrite scan_written; [done..|]. by eapply parsed_rows_visible.
Qed.

Lemma parseCSV_written_again_witness :
  is_separator comma /\
  is_linebreak (String lf "") /\
  parseCSV ("a," +:+ String dquote ("b,c" +:+ String dquote
              (String cr (String lf (String lf ",d")))))
  = Some [["a"; "b,c"]; [""; "d"]] /\
  parseCSV (writeCsv comma (String lf "") false [["a"; "b,c"]; [""; "d"]])
  = Some [["a"; "b,c"]; [""; "d"]].
Proof.
  assert (is_separator comma) as Hsep by (by left).
  assert (is_linebreak (String lf "")) as Hnl by (by left).
  assert (parseCSV ("a," +:+ String dquote ("b,c" +:+ String dquote
                      (String cr (String lf (String lf ",d")))))
          = Some [["a"; "b,c"]; [""; "d"]]) as Hm by reflexivity.
  exact (conj Hsep (conj Hnl (conj Hm
           (parseCSV_written_again _ _ _ _ false Hsep Hnl Hm)))).
Defined.

(** X5: when the text holds no quote character, no cell of the result
    holds a comma, a tab, a quote or a line break. *)
Theorem parseCSV_plain_cells (text : string) :
  has_char dquote text = false ->
  exists m,
    parseCSV text = Some m /\
    Forall (Forall (fun cell => plain cell = true)) m.
Proof.
  intros Hnq.
  pose proof (parseCSV_scan text) as Hp. unfold parseCSV in Hp |- *.
  destruct (loop (String.length text) text 0 init) as [s|] eqn:Hl; [|done].
  exists (finish s). split; [done|].
  assert (all_plain s) as (Hq & Hf & Hr & Ho).
  { apply (loop_all_plain _ _ Hnq _ _ _ Hl). by repeat split. }
  unfold finish. destruct (pending s); [|done].
  apply Forall_app. split; [done|]. apply Forall_singleton.
  apply Forall_app. split; [done|]. by apply Forall_singleton.
Qed.

Lemma parseCSV_plain_cells_witness :
  has_char dquote ("a,b" +:+ String tab ("c" +:+ String cr (String lf "d"))) = false /\
  exists m,
    parseCSV ("a,b" +:+ String tab ("c" +:+ String cr (String lf "d"))) = Some m /\
    Forall (Forall (fun cell => plain cell = true)) m.
Proof.
  split; [reflexivity|].
  apply parseCSV_plain_cells. reflexivity.
Defined.

(** ** Records and the table *)

Lemma toObject_is_Some (head r : list string) (h : string) :
  is_Some (toObject head r !! h) <-> h ∈ head /\ h ≠ "__proto__".
Proof.
  destruct (decide (h = "__proto__")) as [->|Hh].
  { rewrite toObject_proto. split; [by intros [? ?] | by intros [_ ?]]. }
  induction head as [|x head IH] using rev_ind.
  - unfold toObject. simpl. rewrite lookup_empty, elem_of_nil.
    split; [by intros [? ?] | by intros [? _]].
  - rewrite toObject_snoc, elem_of_app, list_elem_of_singleton.
    destruct (decide (x = h)) as [->|Hne].
    + rewrite lookup_setProp_eq by done. split; [auto | eauto].
    + rewrite lookup_setProp_ne, IH by done. split; [tauto|].
      intros [[?|?] ?]; [done | congruence].
Qed.

Lemma getProp_toObject (head r : list string) (h : string) (i : nat) :
  h ≠ "__proto__" ->
  head !! i = Some h ->
  (forall j, i < j -> head !! j ≠ Some h) ->
  getProp (toObject head r) h = Some (default "" (r !! i)).
Proof.
  intros Hh Hi Hlast. unfold getProp.
  by rewrite (toObject_last head r h i Hh Hi Hlast).
Qed.

Lemma getProp_toObject_proto (head r : list string) :
  getProp (toObject head r) "__proto__" = Some "[object Object]".
Proof. unfold getProp. by rewrite toObject_proto. Qed.

Lemma fit_lookup (n : nat) (r : list string) (i : nat) :
  fit n r !! i = if decide (i < n) then Some (default "" (r !! i)) else None.
Proof.
  unfold fit. destruct (decide (i < n)) as [Hlt|Hge].
  - rewrite lookup_take_lt by done.
    destruct (decide (i < length r)) as [Hir|Hir].
    + rewrite lookup_app_l by done.
      apply lookup_lt_is_Some in Hir as [x Hx]. by rewrite Hx.
    + rewrite lookup_app_r by lia.
      rewrite lookup_replicate_2 by lia.
      by rewrite (lookup_ge_None_2 r i) by lia.
  - apply lookup_take_ge. lia.
Qed.

(** X6: the records of a sheet: there is one per data row; the names a
    record holds are exactly the header names other than [__proto__],
    whatever the length of its row, and each such name holds the cell of the
    row under the last header of that name (the empty string when the row is
    too short); a sheet with no row at all gives no header and no record. *)
Theorem toObjects_shape :
  toObjects [] = ([], []) /\
  forall (head : list string) (data : list (list string)),
    (toObjects (head :: data)).1 = head /\
    length (toObjects (head :: data)).2 = length data /\
    forall (k : nat) (r : list string),
      data !! k = Some r ->
      exists obj : record,
        (toObjects (head :: data)).2 !! k = Some obj /\
        (forall h : string,
           is_Some (obj !! h) <-> h ∈ head /\ h ≠ "__proto__") /\
        (forall (h : string) (i : nat),
           h ≠ "__proto__" -> head !! i = Some h ->
           (forall j, i < j -> head !! j ≠ Some h) ->
           obj !! h = Some (default "" (r !! i))).
Proof.
  split; [done|]. intros head data. split; [done|]. split.
  - unfold toObjects. simpl. by rewrite drop_0, length_map.
  - intros k r Hk. exists (toObject head r). split; [|split].
    + unfold toObjects. simpl. by rewrite drop_0, list_lookup_fmap, Hk.
    + intros h. apply toObject_is_Some.
    + intros h i. apply toObject_last.
Qed.

Lemma toObjects_shape_witness :
  [["1"; "2"; "3"]; ["x"]] !! 1 = Some ["x"] /\
  exists obj : record,
    (toObjects [["a"; "__proto__"; "a"]; ["1"; "2"; "3"]; ["x"]]).2 !! 1 = Some obj /\
    (forall h : string,
       is_Some (obj !! h) <-> h ∈ ["a"; "__proto__"; "a"] /\ h ≠ "__proto__") /\
    (forall (h : string) (i : nat),
       h ≠ "__proto__" -> ["a"; "__proto__"; "a"] !! i = Some h ->
       (forall j, i < j -> ["a"; "__proto__"; "a"] !! j ≠ Some h) ->
       obj !! h = Some (default "" (["x"] !! i))).
Proof.
  split; [reflexivity|].
  apply (proj2 (proj2 (proj2 toObjects_shape ["a"; "__proto__"; "a"]
                         [["1"; "2"; "3"]; ["x"]])) 1 ["x"]).
  reflexivity.
Defined.

(** X7: the table of a record shows, under a header other than
    [__proto__], the cell of the record's row that stands under the last
    header of the same name; under the header [__proto__], for which the
    record holds no cell, it shows [[object Object]]. *)
Theorem renderTable_shows_last_duplicate
    (head r : list string) (i j : nat) (h : string) :
  (h ≠ "__proto__" ->
   head !! i = Some h ->
   head !! j = Some h ->
   (forall j', j < j' -> head !! j' ≠ Some h) ->
   (Ui.renderTable head (toObject head r)).2 !! i = Some (default "" (r !! j))) /\
  (head !! i = Some "__proto__" ->
   (Ui.renderTable head (toObject head r)).2 !! i = Some "[object Object]") /\
  (Ui.renderTable head (toObject head r)).1 = head.
Proof.
  split; [|split; [|done]].
  - intros Hh Hi Hj Hlast.
    unfold Ui.renderTable. simpl. rewrite list_lookup_fmap, Hi. simpl.
    by rewrite (getProp_toObject head r h j Hh Hj Hlast).
  - intros Hi. unfold Ui.renderTable. simpl. rewrite list_lookup_fmap, Hi. simpl.
    by rewrite getProp_toObject_proto.
Qed.

Lemma renderTable_shows_last_duplicate_witness :
  ("a" ≠ "__proto__" /\
   ["a"; "__proto__"; "a"] !! 0 = Some "a" /\
   ["a"; "__proto__"; "a"] !! 2 = Some "a" /\
   (Ui.renderTable ["a"; "__proto__"; "a"]
      (toObject ["a"; "__proto__"; "a"] ["1"; "2"; "3"])).2 !! 0
   = Some (default "" (["1"; "2"; "3"] !! 2))) /\
  (["a"; "__proto__"; "a"] !! 1 = Some "__proto__" /\
   (Ui.renderTable ["a"; "__proto__"; "a"]
      (toObject ["a"; "__proto__"; "a"] ["1"; "2"; "3"])).2 !! 1
   = Some "[object Object]").
Proof.
  assert ("a" ≠ "__proto__") as Ha by discriminate.
  split.
  - split; [exact Ha | split; [reflexivity | split; [reflexivity|]]].
    apply (proj1 (renderTable_shows_last_duplicate
                    ["a"; "__proto__"; "a"] ["1"; "2"; "3"] 0 2 "a"));
      [exact Ha | reflexivity | reflexivity |].
    intros j' Hj'. destruct j' as [|[|[|j']]]; [lia | lia | lia | discriminate].
  - split; [reflexivity|].
    apply (proj1 (proj2 (renderTable_shows_last_duplicate
                           ["a"; "__proto__"; "a"] ["1"; "2"; "3"] 1 0 "a"))).
    reflexivity.
Defined.

(** X8: when no header name occurs twice and none is [__proto__], the
    table of the record built from a row shows the header row and, below it,
    that row cut or padded with empty cells to the number of headers. *)
Theorem renderTable_shows_row (head r : list string) :
  NoDup head -> "__proto__" ∉ head ->
  Ui.renderTable head (toObject head r) = (head, fit (length head) r).
Proof.
  intros Hnd Hproto. unfold Ui.renderTable. f_equal.
  apply list_eq. intros i. rewrite list_lookup_fmap, fit_lookup.
  destruct (decide (i < length head)) as [Hlt|Hge].
  - apply lookup_lt_is_Some in Hlt as [h Hh]. rewrite Hh. simpl.
    rewrite (getProp_toObject head r h i); [done| |done|].
    + intros ->. apply Hproto. by eapply list_elem_of_lookup_2.
    + intros j Hj Hjh. pose proof (NoDup_lookup head i j h Hnd Hh Hjh). lia.
  - by rewrite (lookup_ge_None_2 head i) by lia.
Qed.

Lemma renderTable_shows_row_witness :
  NoDup ["class"; "div"; "roll"] /\
  ("__proto__" ∉ ["class"; "div"; "roll"]) /\
  Ui.renderTable ["class"; "div"; "roll"] (toObject ["class"; "div"; "roll"] ["10"; "A"])
  = (["class"; "div"; "roll"], ["10"; "A"; ""]) /\
  Ui.renderTable ["class"; "div"] (toObject ["class"; "div"] ["10"; "A"; "7"])
  = (["class"; "div"], ["10"; "A"]).
Proof.
  assert (NoDup ["class"; "div"; "roll"]) as H3
    by (by apply NoDup_ListNoDup; repeat constructor; simpl; intuition discriminate).
  assert (NoDup ["class"; "div"]) as H2
    by (by apply NoDup_ListNoDup; repeat constructor; simpl; intuition discriminate).
  assert ("__proto__" ∉ ["class"; "div"; "roll"]) as P3.
  { intros Hin. repeat (apply elem_of_cons in Hin as [Hin|Hin]; [discriminate|]).
    by apply elem_of_nil in Hin. }
  assert ("__proto__" ∉ ["class"; "div"]) as P2.
  { intros Hin. repeat (apply elem_of_cons in Hin as [Hin|Hin]; [discriminate|]).
    by apply elem_of_nil in Hin. }
  split; [exact H3|]. split; [exact P3|]. split.
  - exact (renderTable_shows_row ["class"; "div"; "roll"] ["10"; "A"] H3 P3).
  - exact (renderTable_shows_row ["class"; "div"] ["10"; "A"; "7"] H2 P2).
Defined.

(** ** normalize and lower, once more *)

(** X9: normalizing twice is normalizing once, and so is lowering: a value
    already trimmed (and lower-cased) is left as it is, and trimming commutes
    with lower-casing. *)
Theorem normalize_lower_idempotent (v : option string) :
  normalize (Some (normalize v)) = normalize v /\
  lower (Some (lower v)) = lower v /\
  normalize (Some (lower v)) = lower v /\
  lower (Some (normalize v)) = lower v.
Proof.
  split; [apply normalize_idemp|]. unfold lower, normalize. simpl.
  rewrite !trim_toLowerCase, !trim_idemp, toLowerCase_idemp. done.
Qed.

(** ** Column resolution, once more *)

Lemma aliasResult_Some (headers : list string) (aliases : role -> list string)
    (k : role) (h : string) :
  aliasResult headers aliases k = Some h ->
  h ∈ headers /\ lower (Some h) ∈ aliases k.
Proof.
  unfold aliasResult.
  intros (pre & c & post & i & Hal & _ & Hi & _ & Hh)%tryAliases_Some;
    [|apply lowerHeaders_length].
  split; [by eapply list_elem_of_lookup_2|].
  rewrite list_lookup_fmap, Hh in Hi. simpl in Hi. injection Hi as ->.
  rewrite Hal. apply elem_of_app. right. by left.
Qed.

Lemma aliasResult_None (headers : list string) (aliases : role -> list string)
    (k : role) :
  aliasResult headers aliases k = None <->
  forall h, h ∈ headers -> lower (Some h) ∉ aliases k.
Proof.
  unfold aliasResult. rewrite tryAliases_None by apply lowerHeaders_length.
  split.
  - intros Hall h Hh Hc. apply (Hall _ Hc).
    apply list_elem_of_fmap. eauto.
  - intros Hall c Hc (h & -> & Hh)%list_elem_of_fmap. by apply (Hall h).
Qed.

Lemma partialMatch_None (headers : list string) (k : role) :
  partialMatch headers k = None <->
  forall h, h ∈ headers -> includes (lower (Some h)) (key k) = false.
Proof.
  unfold partialMatch. rewrite fmap_None, list_find_None, Forall_forall.
  split; intros Hall h Hh; specialize (Hall h Hh);
    by destruct (includes (lower (Some h)) (key k)).
Qed.

Lemma resolveKey_in_headers
    (headers : list string) (aliases : role -> list string) (k : role) (h : string) :
  resolveKey headers aliases k = Some h -> h ∈ headers.
Proof.
  unfold resolveKey.
  destruct (fallbackRuns headers aliases k).
  - destruct (partialMatch headers k) as [m|] eqn:Hm; cbv zeta.
    + rewrite (partialMatch_truthy headers k m Hm). intros [= <-].
      apply partialMatch_Some in Hm as (i & Hi & _). by eapply list_elem_of_lookup_2.
    + intros Hh. by apply aliasResult_Some in Hh as [? _].
  - intros Hh. by apply aliasResult_Some in Hh as [? _].
Qed.

(** X10: a role is never bound to anything but one of the headers, in its
    original spelling. *)
Theorem resolveColumns_in_headers
    (headers : list string) (aliases : role -> list string) (k : role) (h : string) :
  resolveColumns headers aliases k = Some h -> h ∈ headers.
Proof. apply resolveKey_in_headers. Qed.

Lemma resolveColumns_in_headers_witness :
  resolveColumns ["Name"; "Std"] COLUMN_ALIASES class = Some "Std" /\
  "Std" ∈ ["Name"; "Std"].
Proof.
  split; [reflexivity|].
  apply (resolveColumns_in_headers ["Name"; "Std"] COLUMN_ALIASES class).
  reflexivity.
Defined.

Lemma resolveKey_truthy_iff
    (headers : list string) (aliases : role -> list string) (k : role) :
  (forall c, c ∈ aliases k -> c ≠ "") ->
  truthy (resolveColumns headers aliases k) = true <->
  exists h, h ∈ headers /\
            (lower (Some h) ∈ aliases k \/
             includes (lower (Some h)) (key k) = true).
Proof.
  intros Hne.
  assert (forall h, aliasResult headers aliases k = Some h -> truthy (Some h) = true)
    as Halias.
  { intros h [_ Hh]%aliasResult_Some. destruct h as [|c h]; [|done].
    by destruct (Hne _ Hh). }
  unfold resolveColumns, resolveKey, fallbackRuns. split.
  - destruct (aliasResult headers aliases k) as [h|] eqn:Ha.
    + rewrite (Halias h eq_refl). simpl. intros _.
      apply aliasResult_Some in Ha as [? ?]. eauto.
    + simpl. destruct (partialMatch headers k) as [m|] eqn:Hm; [|done].
      intros _. apply partialMatch_Some in Hm as (i & Hi & Hinc & _).
      exists m. split; [by eapply list_elem_of_lookup_2 | by right].
  - intros (h & Hh & Hcase).
    destruct (aliasResult headers aliases k) as [h0|] eqn:Ha.
    { rewrite (Halias h0 eq_refl). simpl negb. cbv iota. by apply Halias. }
    simpl. destruct Hcase as [Hal|Hinc].
    { exfalso. by apply (proj1 (aliasResult_None headers aliases k) Ha h). }
    destruct (partialMatch headers k) as [m|] eqn:Hm.
    + rewrite (partialMatch_truthy headers k m Hm).
      apply (partialMatch_truthy headers k m Hm).
    + exfalso. pose proof (proj1 (partialMatch_None headers k) Hm h Hh). congruence.
Qed.

(** X11: for an alias table without the empty alias (the script's own is
    one), a role comes out resolved, that is bound to a non-empty header,
    exactly when some header, lower-cased and trimmed, is one of the role's
    aliases or contains the role's name.  Lower-casing and trimming a header
    is lower-casing it without the white space at its two ends, so the
    header [ STD ] resolves the class role. *)
Theorem resolveColumns_resolved_iff
    (headers : list string) (aliases : role -> list string) (k : role) :
  (forall c, c ∈ aliases k -> c ≠ "") ->
  (truthy (resolveColumns headers aliases k) = true <->
   exists h, h ∈ headers /\
             (lower (Some h) ∈ aliases k \/
              includes (lower (Some h)) (key k) = true)) /\
  (forall h c, trims_to h c -> lower (Some h) = toLowerCase c) /\
  truthy (resolveColumns [" STD "] COLUMN_ALIASES class) = true.
Proof.
  intros Hal. split; [by apply resolveKey_truthy_iff|].
  split; [apply lower_spec | reflexivity].
Qed.

Lemma COLUMN_ALIASES_nonempty (k : role) (c : string) :
  c ∈ COLUMN_ALIASES k -> c ≠ "".
Proof.
  intros Hc ->. destruct k; simpl in Hc;
    repeat (apply elem_of_cons in Hc as [Hc|Hc]; [discriminate|]);
    by apply elem_of_nil in Hc.
Qed.

Lemma resolveColumns_resolved_iff_witness :
  truthy (resolveColumns ["Name"; "Marks"] COLUMN_ALIASES roll) = true <->
  exists h, h ∈ ["Name"; "Marks"] /\
            (lower (Some h) ∈ COLUMN_ALIASES roll \/
             includes (lower (Some h)) (key roll) = true).
Proof.
  apply (proj1 (resolveColumns_resolved_iff ["Name"; "Marks"] COLUMN_ALIASES roll
                  (COLUMN_ALIASES_nonempty roll))).
Defined.

(** ** Menus *)

Section MenuFacts.
Context `{Host}.

Lemma uniqueSorted_nil_iff (values : list (option string)) :
  uniqueSorted values = [] <-> forall v, v ∈ values -> normalize v = "".
Proof.
  split.
  - intros Hnil v Hv. destruct (normalize v) as [|c s] eqn:Hn; [done|].
    assert (String c s ∈ uniqueSorted values) as Hin.
    { apply elem_of_uniqueSorted. split; [done | eauto]. }
    rewrite Hnil in Hin. by apply elem_of_nil in Hin.
  - intros Hall. destruct (uniqueSorted values) as [|x l] eqn:Hu; [done|].
    assert (x ∈ uniqueSorted values) as Hin by (rewrite Hu; by left).
    apply elem_of_uniqueSorted in Hin as [Hne (v & Hv & Hx)].
    rewrite (Hall v Hv) in Hx. congruence.
Qed.

Lemma elem_of_divisionValues (rows : list record) (idx : role -> option string)
    (cls d : string) :
  d ∈ divisionValues rows idx cls <->
  cls ≠ "" /\ d ≠ "" /\
  exists r, r ∈ rows /\
            normalize (prop r (idx class)) = normalize (Some cls) /\
            normalize (prop r (idx division)) = d.
Proof.
  unfold divisionValues. destruct cls as [|c cls]; simpl negb; cbv iota.
  { rewrite elem_of_nil. by split; [|intros [? _]]. }
  rewrite elem_of_uniqueSorted. split.
  - intros [Hd (v & Hv & Hvd)]. split; [done|]. split; [done|].
    apply list_elem_of_fmap in Hv as (r & -> & Hr).
    apply list_elem_of_filter in Hr as [Hsame Hr].
    apply same_true in Hsame. eauto.
  - intros (_ & Hd & r & Hr & Hc & Hrd). split; [done|].
    exists (prop r (idx division)). split; [|done].
    apply list_elem_of_fmap. exists r. split; [done|].
    apply list_elem_of_filter. split; [|done]. by apply same_true.
Qed.

Lemma elem_of_rollValues (rows : list record) (idx : role -> option string)
    (cls div x : string) :
  x ∈ rollValues rows idx cls div <->
  cls ≠ "" /\ div ≠ "" /\ x ≠ "" /\
  exists r, r ∈ rows /\
            normalize (prop r (idx class)) = normalize (Some cls) /\
            normalize (prop r (idx division)) = normalize (Some div) /\
            normalize (prop r (idx roll)) = x.
Proof.
  unfold rollValues.
  destruct cls as [|c cls]; simpl negb; simpl orb; cbv iota.
  { rewrite elem_of_nil. by split; [|intros [? _]]. }
  destruct div as [|c' div]; simpl negb; cbv iota.
  { rewrite elem_of_nil. by split; [|intros (_ & ? & _)]. }
  rewrite elem_of_uniqueSorted. split.
  - intros [Hx (v & Hv & Hvx)]. split; [done|]. split; [done|]. split; [done|].
    apply list_elem_of_fmap in Hv as (r & -> & Hr).
    apply list_elem_of_filter in Hr as [Hsame Hr].
    apply andb_true_iff in Hsame as [Hc Hd].
    apply same_true in Hc. apply same_true in Hd.
    exists r. eauto.
  - intros (_ & _ & Hx & r & Hr & Hc & Hd & Hrx). split; [done|].
    exists (prop r (idx roll)). split; [|done].
    apply list_elem_of_fmap. exists r. split; [done|].
    apply list_elem_of_filter. split; [|done].
    apply andb_true_iff. split; by apply same_true.
Qed.

(** The comparisons of the cascade, said without [trim]. *)
Lemma cell_trims (r : record) (k : option string) (x : string) :
  normalize (prop r k) = x <-> trims_to (cell r k) x.
Proof. apply normalize_spec. Qed.

Lemma cell_same (r : record) (k : option string) (selected : string) :
  normalize (prop r k) = normalize (Some selected) <->
  same_trimmed (cell r k) selected.
Proof. apply normalize_same. Qed.

Lemma cell_blank (r : record) (k : option string) :
  normalize (prop r k) ≠ "" <-> blank (cell r k) = false.
Proof.
  pose proof (normalize_blank (prop r k)) as Hb. fold (cell r k) in Hb.
  destruct (blank (cell r k)); split.
  - intros Hne. destruct Hne. by apply Hb.
  - discriminate.
  - done.
  - intros _ Hn. apply Hb in Hn. discriminate.
Qed.

Lemma uniqueSorted_nil_blank (values : list (option string)) :
  uniqueSorted values = [] <->
  forall v, v ∈ values -> blank (default "" v) = true.
Proof.
  rewrite uniqueSorted_nil_iff.
  split; intros Hall v Hv; apply normalize_blank; by apply Hall.
Qed.

Lemma offered_class (rows : list record) (idx : role -> option string)
    (x : string) :
  x ∈ classValues rows idx <->
  x ≠ "" /\ exists r, r ∈ rows /\ trims_to (cell r (idx class)) x.
Proof.
  unfold classValues. rewrite elem_of_uniqueSorted. split.
  - intros [Hx (v & (r & -> & Hr)%list_elem_of_fmap & Hvx)].
    split; [done|]. exists r. split; [done|]. by apply cell_trims.
  - intros [Hx (r & Hr & Hrx)]. split; [done|].
    exists (prop r (idx class)). split; [|by apply cell_trims].
    apply list_elem_of_fmap. eauto.
Qed.

Lemma offered_division (rows : list record) (idx : role -> option string)
    (cls d : string) :
  d ∈ divisionValues rows idx cls <->
  cls ≠ "" /\ d ≠ "" /\
  exists r, r ∈ rows /\
            same_trimmed (cell r (idx class)) cls /\
            trims_to (cell r (idx division)) d.
Proof.
  rewrite elem_of_divisionValues.
  split; intros (Hc & Hd & r & Hr & Hrc & Hrd);
    (split; [done|]; split; [done|]; exists r; split; [done|]; split);
    [by apply cell_same | by apply cell_trims
     | by apply cell_same | by apply cell_trims].
Qed.

Lemma offered_roll (rows : list record) (idx : role -> option string)
    (cls div x : string) :
  x ∈ rollValues rows idx cls div <->
  cls ≠ "" /\ div ≠ "" /\ x ≠ "" /\
  exists r, r ∈ rows /\
            same_trimmed (cell r (idx class)) cls /\
            same_trimmed (cell r (idx division)) div /\
            trims_to (cell r (idx roll)) x.
Proof.
  rewrite elem_of_rollValues.
  split; intros (Hc & Hd & Hx & r & Hr & Hrc & Hrd & Hrx);
    (split; [done|]; split; [done|]; split; [done|]; exists r;
     split; [done|]; split; [|split]);
    [by apply cell_same | by apply cell_same | by apply cell_trims
     | by apply cell_same | by apply cell_same | by apply cell_trims].
Qed.

End MenuFacts.

(** X12: a menu gets no option exactly when every candidate is blank:
    missing, empty, or made of white space only (spaces, tabs and the
    like). *)
Theorem uniqueSorted_empty_iff (host : Host) (values : list (option string)) :
  (uniqueSorted values = [] <->
   forall v, v ∈ values -> blank (default "" v) = true) /\
  uniqueSorted [None; Some ""; Some "  "; Some (String tab " ")] = [] /\
  uniqueSorted [None; Some " x "; Some "  "] = ["x"].
Proof. split; [apply uniqueSorted_nil_blank | by split]. Qed.

Lemma uniqueSorted_empty_iff_witness :
  (forall v, v ∈ [None; Some "  "; Some (String tab "")] ->
             blank (default "" v) = true) /\
  @uniqueSorted exampleHost [None; Some "  "; Some (String tab "")] = [].
Proof.
  assert (forall v, v ∈ [None; Some "  "; Some (String tab "")] ->
                    blank (default "" v) = true) as Hall.
  { intros v Hv.
    repeat (apply elem_of_cons in Hv as [->|Hv]; [reflexivity|]).
    by apply elem_of_nil in Hv. }
  split; [exact Hall|].
  exact (proj2 (proj1 (uniqueSorted_empty_iff exampleHost
                         [None; Some "  "; Some (String tab "")])) Hall).
Defined.

(** X13: what the three menus offer.  The class menu lists the class cells
    of all records, each without the white space at its two ends, the blank
    ones left out; the division menu, for a chosen class, the division cells
    of the records whose class cell and the choice are the same without the
    white space at their ends; the roll menu, for a chosen class and
    division, the roll cells of the records of that class and division.
    Nothing else is offered, and with an empty choice nothing is.  So the
    class cells [ 10 ] and [10] make one option, [10]. *)
Theorem menus_offer (host : Host) (rows : list record)
    (idx : role -> option string) (cls div x : string) :
  (x ∈ classValues rows idx <->
     x ≠ "" /\ exists r, r ∈ rows /\ trims_to (cell r (idx class)) x) /\
  (x ∈ divisionValues rows idx cls <->
     cls ≠ "" /\ x ≠ "" /\
     exists r, r ∈ rows /\
               same_trimmed (cell r (idx class)) cls /\
               trims_to (cell r (idx division)) x) /\
  (x ∈ rollValues rows idx cls div <->
     cls ≠ "" /\ div ≠ "" /\ x ≠ "" /\
     exists r, r ∈ rows /\
               same_trimmed (cell r (idx class)) cls /\
               same_trimmed (cell r (idx division)) div /\
               trims_to (cell r (idx roll)) x) /\
  classValues [toObject ["class"; "div"; "roll"] [" 10 "; " A"; "1"];
               toObject ["class"; "div"; "roll"] ["10"; "A "; " 1 "];
               toObject ["class"; "div"; "roll"] ["  "; "B"; "2"]] exampleIdx
  = ["10"] /\
  divisionValues [toObject ["class"; "div"; "roll"] [" 10 "; " A"; "1"];
                  toObject ["class"; "div"; "roll"] ["10"; "A "; " 1 "];
                  toObject ["class"; "div"; "roll"] ["  "; "B"; "2"]] exampleIdx
                 "10 "
  = ["A"] /\
  rollValues [toObject ["class"; "div"; "roll"] [" 10 "; " A"; "1"];
              toObject ["class"; "div"; "roll"] ["10"; "A "; " 1 "];
              toObject ["class"; "div"; "roll"] ["  "; "B"; "2"]] exampleIdx
             "10 " " A "
  = ["1"].
Proof.
  split; [apply offered_class|]. split; [apply offered_division|].
  split; [apply offered_roll|]. by vm_compute.
Qed.

Lemma menus_offer_witness :
  (same_trimmed
     (cell (toObject ["class"; "div"; "roll"] [" 10 "; " A"; "1"]) (exampleIdx class))
     "10 " /\
   trims_to
     (cell (toObject ["class"; "div"; "roll"] [" 10 "; " A"; "1"]) (exampleIdx division))
     "A") /\
  "A" ∈ @divisionValues exampleHost
          [toObject ["class"; "div"; "roll"] [" 10 "; " A"; "1"]] exampleIdx "10 ".
Proof.
  assert (same_trimmed
            (cell (toObject ["class"; "div"; "roll"] [" 10 "; " A"; "1"])
                  (exampleIdx class)) "10 ") as Hc.
  { exists "10". split.
    - split; [reflexivity | split; [reflexivity|]].
      exists " ", " ". split; [reflexivity | split; [reflexivity|]].
      vm_compute. reflexivity.
    - split; [reflexivity | split; [reflexivity|]].
      exists "", " ". split; [reflexivity | split; [reflexivity|]].
      reflexivity. }
  assert (trims_to
            (cell (toObject ["class"; "div"; "roll"] [" 10 "; " A"; "1"])
                  (exampleIdx division)) "A") as Hd.
  { split; [reflexivity | split; [reflexivity|]].
    exists " ", "". split; [reflexivity | split; [reflexivity|]].
    vm_compute. reflexivity. }
  split; [exact (conj Hc Hd)|].
  apply (proj1 (proj2 (menus_offer exampleHost
           [toObject ["class"; "div"; "roll"] [" 10 "; " A"; "1"]]
           exampleIdx "10 " "" "A"))).
  split; [discriminate|]. split; [discriminate|].
  exists (toObject ["class"; "div"; "roll"] [" 10 "; " A"; "1"]).
  split; [by left|]. exact (conj Hc Hd).
Defined.

(** X14: the cascade has no dead end: a roll number the roll menu offers
    for the chosen class and division always finds a record, which is one of
    the rows and agrees with the three choices, and the card is shown. *)
Theorem offered_roll_is_found (host : Host) (rows : list record)
    (idx : role -> option string) (cls div roll_ : string) :
  roll_ ∈ rollValues rows idx cls div ->
  exists r,
    findRecord rows idx cls div roll_ = Some r /\
    onRollChange rows idx cls div roll_ = Card r /\
    r ∈ rows /\ matches idx cls div roll_ r.
Proof.
  intros (Hc & Hd & Hx & r0 & Hr0 & Hrc & Hrd & Hrx)%elem_of_rollValues.
  assert (matches idx cls div roll_ r0) as Hm0.
  { apply same3_matches. rewrite !andb_true_iff, !same_true.
    split; [split; [done | done]|]. by rewrite <- Hrx, normalize_idemp. }
  destruct (findRecord rows idx cls div roll_) as [r|] eqn:Hf.
  - exists r. split; [done|].
    pose proof (proj1 (findRecord_Some rows idx cls div roll_ r) Hf)
      as (i & Hi & Hm & _).
    split; [|split; [by eapply list_elem_of_lookup_2 | done]].
    unfold onRollChange. rewrite Hf.
    apply nonempty_true in Hc, Hd, Hx. by rewrite Hc, Hd, Hx.
  - exfalso. by apply (proj1 (findRecord_None rows idx cls div roll_) Hf r0).
Qed.

Lemma offered_roll_is_found_witness :
  "1" ∈ @rollValues exampleHost exampleRows exampleIdx "10" "A" /\
  exists r,
    findRecord exampleRows exampleIdx "10" "A" "1" = Some r /\
    onRollChange exampleRows exampleIdx "10" "A" "1" = Card r /\
    r ∈ exampleRows /\ matches exampleIdx "10" "A" "1" r.
Proof.
  assert ("1" ∈ @rollValues exampleHost exampleRows exampleIdx "10" "A") as Hin.
  { assert (@rollValues exampleHost exampleRows exampleIdx "10" "A" = ["1"]) as ->
      by (vm_compute; reflexivity).
    by left. }
  exact (conj Hin (offered_roll_is_found exampleHost _ _ _ _ _ Hin)).
Defined.

(** X15: the three outcomes of choosing a roll number: nothing is shown
    exactly when one of the three choices is empty; a card shows a record
    that is one of the rows, agrees with the three choices and has no
    agreeing record before it; the no-match note stands for no agreeing
    record at all. *)
Theorem onRollChange_outcomes (rows : list record)
    (idx : role -> option string) (cls div roll_ : string) :
  (onRollChange rows idx cls div roll_ = Hidden <->
     cls = "" \/ div = "" \/ roll_ = "") /\
  (forall r, onRollChange rows idx cls div roll_ = Card r ->
     exists i, rows !! i = Some r /\ matches idx cls div roll_ r /\
               forall j r', rows !! j = Some r' -> j < i ->
                            ~ matches idx cls div roll_ r') /\
  (onRollChange rows idx cls div roll_ = NoMatch ->
     forall r, r ∈ rows -> ~ matches idx cls div roll_ r).
Proof.
  unfold onRollChange.
  destruct cls as [|c1 cls]; [by split; [split; [left|] | split]|].
  destruct div as [|c2 div]; [by split; [split; [right; left|] | split]|].
  destruct roll_ as [|c3 roll_]; [by split; [split; [right; right|] | split]|].
  simpl negb. simpl orb. cbv iota.
  destruct (findRecord rows idx (String c1 cls) (String c2 div) (String c3 roll_))
    as [r|] eqn:Hf.
  - split; [split; [done | by intros [?|[?|?]]]|]. split; [|done].
    intros r' [= <-]. by apply findRecord_Some.
  - split; [split; [done | by intros [?|[?|?]]]|]. split; [done|].
    intros _. by apply findRecord_None.
Qed.

Lemma onRollChange_outcomes_witness :
  onRollChange exampleRows exampleIdx "10" "B" "2"
  = Card (toObject ["class"; "div"; "roll"] ["10"; "B"; "2"]) /\
  exists i,
    exampleRows !! i = Some (toObject ["class"; "div"; "roll"] ["10"; "B"; "2"]) /\
    matches exampleIdx "10" "B" "2" (toObject ["class"; "div"; "roll"] ["10"; "B"; "2"]) /\
    forall j r', exampleRows !! j = Some r' -> j < i ->
                 ~ matches exampleIdx "10" "B" "2" r'.
Proof.
  assert (onRollChange exampleRows exampleIdx "10" "B" "2"
          = Card (toObject ["class"; "div"; "roll"] ["10"; "B"; "2"])) as Hc
    by (vm_compute; reflexivity).
  exact (conj Hc (proj1 (proj2 (onRollChange_outcomes exampleRows exampleIdx
                                  "10" "B" "2")) _ Hc)).
Defined.

(** ** Sorting names *)

Lemma exampleHost_sign (a b : string) :
  sign (@localeCompare exampleHost a b) = String.compare a b.
Proof. simpl. by destruct (String.compare a b). Qed.

Lemma compare_le (a b : string) : String.compare a b ≠ Gt <-> String.le a b.
Proof.
  unfold String.le, String.leb. destruct (String.compare a b); simpl; split; try done.
Qed.

Lemma exampleHost_antisym (a b : string) :
  sign (@localeCompare exampleHost a b) = Gt ->
  sign (@localeCompare exampleHost b a) = Lt.
Proof.
  rewrite !exampleHost_sign, (String.compare_antisym b a).
  by intros ->.
Qed.

Lemma exampleHost_trans (a b c : string) :
  sign (@localeCompare exampleHost a b) ≠ Gt ->
  sign (@localeCompare exampleHost b c) ≠ Gt ->
  sign (@localeCompare exampleHost a c) ≠ Gt.
Proof.
  rewrite !exampleHost_sign, !compare_le. intros Hab Hbc. by etrans.
Qed.

(** X16: when none of the values converts to a number and the collation
    of the host is an order (antisymmetric and transitive), the values come
    out in ascending collation order. *)
Theorem uniqueSorted_collated (host : Host) (values : list (option string)) :
  (forall x, x ∈ uniqueSorted values -> isNaN (Number x) = true) ->
  (forall a b, sign (localeCompare a b) = Gt -> sign (localeCompare b a) = Lt) ->
  (forall a b c, sign (localeCompare a b) ≠ Gt -> sign (localeCompare b c) ≠ Gt ->
                 sign (localeCompare a c) ≠ Gt) ->
  StronglySorted (fun a b => sign (localeCompare a b) ≠ Gt) (uniqueSorted values).
Proof.
  intros Hnan Hanti Htrans. unfold uniqueSorted.
  assert (forall x y, isNaN (Number x) = true ->
                      compareValues x y = localeCompare x y) as Hcmp.
  { intros x y Hx. unfold compareValues. by rewrite Hx. }
  apply (sort_sorted compareValues _ (fun x => isNaN (Number x) = true)).
  - exact Htrans.
  - intros x y Hx _. rewrite Hcmp by done. by intros ->.
  - intros x y Hx _. rewrite Hcmp by done. intros Hlt Hgt.
    by apply Hlt, Hanti.
  - apply Forall_forall. intros x Hx. apply Hnan.
    unfold uniqueSorted. by rewrite sort_perm.
Qed.

Lemma uniqueSorted_collated_witness :
  @uniqueSorted exampleHost [Some "B "; Some "A"; None; Some "C"; Some " A"]
  = ["A"; "B"; "C"] /\
  StronglySorted (fun a b => sign (@localeCompare exampleHost a b) ≠ Gt)
    (@uniqueSorted exampleHost [Some "B "; Some "A"; None; Some "C"; Some " A"]).
Proof.
  split; [vm_compute; reflexivity|].
  apply (uniqueSorted_collated exampleHost).
  - intros x Hx.
    change (x ∈ ["A"; "B"; "C"]) in Hx.
    repeat (apply elem_of_cons in Hx as [->|Hx]; [reflexivity|]).
    by apply elem_of_nil in Hx.
  - apply exampleHost_antisym.
  - apply exampleHost_trans.
Defined.

(** ** The page *)

Lemma length_zero_nil {A : Type} (l : list A) : length l = 0 <-> l = [].
Proof. by destruct l. Qed.

(** X17: no handler leaves the result card and the no-match note both
    visible: choosing a class or a division and clearing hide both, and
    choosing a roll number shows at most one of them. *)
Theorem card_and_note_never_both (host : Host) (headers : list string)
    (rows : list record) (idx : role -> option string)
    (cls div roll_ : string) (p : Ui.page) :
  Ui.cardHidden (Ui.onClassChange rows idx cls p)
  && Ui.noMatchHidden (Ui.onClassChange rows idx cls p) = true /\
  Ui.cardHidden (Ui.onDivisionChange rows idx cls div p)
  && Ui.noMatchHidden (Ui.onDivisionChange rows idx cls div p) = true /\
  Ui.cardHidden (Ui.clearFilters p) && Ui.noMatchHidden (Ui.clearFilters p) = true /\
  Ui.cardHidden (Ui.onRollChange headers rows idx cls div roll_ p)
  || Ui.noMatchHidden (Ui.onRollChange headers rows idx cls div roll_ p) = true.
Proof.
  unfold Ui.onClassChange, Ui.onDivisionChange, Ui.onRollChange, Ui.clearFilters.
  repeat split.
  - by destruct (negb (nonempty cls)).
  - by destruct (negb (nonempty cls) || negb (nonempty div)).
  - destruct (negb (nonempty cls) || negb (nonempty div) || negb (nonempty roll_));
      [done|].
    by destruct (snd <$> list_find _ rows).
Qed.

(** X18: when choosing a roll number shows the card, the table shows the
    headers and, under each of them, what the first record that agrees with
    the three choices gives for that name, read as the script reads a
    property (a name the record does not hold itself is looked up in
    [Object.prototype], so that the header [__proto__] shows
    [[object Object]]), or the empty cell when it gives nothing; the note is
    shown only when all three choices are made and no record agrees. *)
Theorem onRollChange_page (headers : list string) (rows : list record)
    (idx : role -> option string) (cls div roll_ : string) (p : Ui.page) :
  (Ui.cardHidden (Ui.onRollChange headers rows idx cls div roll_ p) = false ->
   exists r,
     findRecord rows idx cls div roll_ = Some r /\
     Ui.table (Ui.onRollChange headers rows idx cls div roll_ p)
     = (headers, map (fun h => default "" (getProp r h)) headers) /\
     (forall i, headers !! i = Some "__proto__" -> r !! "__proto__" = None ->
                (Ui.table (Ui.onRollChange headers rows idx cls div roll_ p)).2 !! i
                = Some "[object Object]")) /\
  (Ui.noMatchHidden (Ui.onRollChange headers rows idx cls div roll_ p) = false ->
   cls ≠ "" /\ div ≠ "" /\ roll_ ≠ "" /\
   forall r, r ∈ rows -> ~ matches idx cls div roll_ r).
Proof.
  unfold Ui.onRollChange.
  destruct cls as [|c1 cls]; [done|].
  destruct div as [|c2 div]; [done|].
  destruct roll_ as [|c3 roll_]; [done|].
  simpl negb. simpl orb. cbv iota.
  fold (findRecord rows idx (String c1 cls) (String c2 div) (String c3 roll_)).
  destruct (findRecord rows idx (String c1 cls) (String c2 div) (String c3 roll_))
    as [r|] eqn:Hf; simpl.
  - split; [|done]. intros _. exists r. split; [done|]. split; [done|].
    intros i Hi Hr. unfold Ui.renderTable. simpl.
    rewrite list_lookup_fmap, Hi. simpl. unfold getProp. by rewrite Hr.
  - split; [done|]. intros _. repeat split; try done. by apply findRecord_None.
Qed.

Lemma onRollChange_page_witness :
  (Ui.cardHidden (Ui.onRollChange ["class"; "div"; "roll"] exampleRows exampleIdx
                    "10" "B" "2" (Ui.clearFilters
                      (Ui.Page (Ui.Select [] true) (Ui.Select [] true)
                               (Ui.Select [] true) true true ([], [])))) = false /\
   exists r,
     findRecord exampleRows exampleIdx "10" "B" "2" = Some r /\
     Ui.table (Ui.onRollChange ["class"; "div"; "roll"] exampleRows exampleIdx
                 "10" "B" "2" (Ui.clearFilters
                   (Ui.Page (Ui.Select [] true) (Ui.Select [] true)
                            (Ui.Select [] true) true true ([], []))))
     = (["class"; "div"; "roll"],
        map (fun h => default "" (getProp r h)) ["class"; "div"; "roll"]) /\
     (forall i, ["class"; "div"; "roll"] !! i = Some "__proto__" ->
                r !! "__proto__" = None ->
                (Ui.table (Ui.onRollChange ["class"; "div"; "roll"] exampleRows
                   exampleIdx "10" "B" "2" (Ui.clearFilters
                     (Ui.Page (Ui.Select [] true) (Ui.Select [] true)
                              (Ui.Select [] true) true true ([], []))))).2 !! i
                = Some "[object Object]")) /\
  (Ui.noMatchHidden (Ui.onRollChange ["class"; "div"; "roll"] exampleRows exampleIdx
                       "10" "A" "2" (Ui.clearFilters
                         (Ui.Page (Ui.Select [] true) (Ui.Select [] true)
                                  (Ui.Select [] true) true true ([], [])))) = false /\
   forall r, r ∈ exampleRows -> ~ matches exampleIdx "10" "A" "2" r).
Proof.
  split.
  - assert (Ui.cardHidden (Ui.onRollChange ["class"; "div"; "roll"] exampleRows
              exampleIdx "10" "B" "2" (Ui.clearFilters
                (Ui.Page (Ui.Select [] true) (Ui.Select [] true)
                         (Ui.Select [] true) true true ([], [])))) = false) as Hc
      by (vm_compute; reflexivity).
    exact (conj Hc (proj1 (onRollChange_page _ _ _ _ _ _ _) Hc)).
  - assert (Ui.noMatchHidden (Ui.onRollChange ["class"; "div"; "roll"] exampleRows
              exampleIdx "10" "A" "2" (Ui.clearFilters
                (Ui.Page (Ui.Select [] true) (Ui.Select [] true)
                         (Ui.Select [] true) true true ([], [])))) = false) as Hn
      by (vm_compute; reflexivity).
    exact (conj Hn (proj2 (proj2 (proj2 (proj2
             (onRollChange_page _ _ _ _ _ _ _) Hn))))).
Defined.

Lemma menus_enabled (host : Host) (rows : list record)
    (idx : role -> option string) (cls div : string) (p : Ui.page) :
  (Ui.disabled (Ui.divSelect (Ui.onClassChange rows idx cls p)) = false <->
     cls ≠ "" /\
     exists r, r ∈ rows /\
               normalize (prop r (idx class)) = normalize (Some cls) /\
               normalize (prop r (idx division)) ≠ "") /\
  (Ui.disabled (Ui.rollSelect (Ui.onClassChange rows idx cls p)) = true /\
   length (Ui.options (Ui.rollSelect (Ui.onClassChange rows idx cls p))) = 1) /\
  (Ui.disabled (Ui.rollSelect (Ui.onDivisionChange rows idx cls div p)) = false <->
     cls ≠ "" /\ div ≠ "" /\
     exists r, r ∈ rows /\
               normalize (prop r (idx class)) = normalize (Some cls) /\
               normalize (prop r (idx division)) = normalize (Some div) /\
               normalize (prop r (idx roll)) ≠ "").
Proof.
  split; [|split].
  - unfold Ui.onClassChange. destruct cls as [|c cls]; simpl negb; cbv iota.
    { simpl. split; [done | by intros [? _]]. }
    simpl Ui.disabled. rewrite bool_decide_eq_false, length_zero_nil.
    fold (divisionValues rows idx (String c cls)).
    change (uniqueSorted _) with (divisionValues rows idx (String c cls)).
    split.
    + intros Hne. split; [done|].
      destruct (divisionValues rows idx (String c cls)) as [|d l] eqn:Hd; [done|].
      assert (d ∈ divisionValues rows idx (String c cls)) as Hin
        by (rewrite Hd; by left).
      apply elem_of_divisionValues in Hin as (_ & Hdne & r & Hr & Hc & Hrd).
      exists r. split; [done|]. split; [done|]. by rewrite Hrd.
    + intros (_ & r & Hr & Hc & Hrd) Hnil.
      assert (normalize (prop r (idx division))
              ∈ divisionValues rows idx (String c cls)) as Hin.
      { apply elem_of_divisionValues. split; [done|]. split; [done|]. eauto. }
      rewrite Hnil in Hin. by apply elem_of_nil in Hin.
  - unfold Ui.onClassChange. by destruct (negb (nonempty cls)).
  - unfold Ui.onDivisionChange.
    destruct cls as [|c cls]; simpl negb; simpl orb; cbv iota.
    { simpl. split; [done | by intros [? _]]. }
    destruct div as [|c' div]; simpl negb; cbv iota.
    { simpl. split; [done | by intros (_ & ? & _)]. }
    simpl Ui.disabled. rewrite bool_decide_eq_false, length_zero_nil.
    change (uniqueSorted _)
      with (rollValues rows idx (String c cls) (String c' div)).
    split.
    + intros Hne. split; [done|]. split; [done|].
      destruct (rollValues rows idx (String c cls) (String c' div))
        as [|x l] eqn:Hx; [done|].
      assert (x ∈ rollValues rows idx (String c cls) (String c' div)) as Hin
        by (rewrite Hx; by left).
      apply elem_of_rollValues in Hin as (_ & _ & Hxne & r & Hr & Hc & Hd & Hrx).
      exists r. split; [done|]. split; [done|]. split; [done|]. by rewrite Hrx.
    + intros (_ & _ & r & Hr & Hc & Hd & Hrx) Hnil.
      assert (normalize (prop r (idx roll))
              ∈ rollValues rows idx (String c cls) (String c' div)) as Hin.
      { apply elem_of_rollValues. repeat split; try done. eauto 6. }
      rewrite Hnil in Hin. by apply elem_of_nil in Hin.
Qed.

(** X19: the division menu is enabled after a class is chosen exactly when
    some record of that class (its class cell and the choice being the same
    without the white space at their ends) has a division that is not blank
    (not missing, empty or white space only), and the roll menu is then
    always emptied and disabled; the roll menu is enabled after a division
    is chosen exactly when some record of that class and division has a
    roll number that is not blank.  So a division of two spaces leaves the
    division menu disabled, and the class cell [ 10 ] with the division [A ]
    enables it for the choice [10]. *)
Theorem menus_enabled_iff (host : Host) (rows : list record)
    (idx : role -> option string) (cls div : string) (p : Ui.page) :
  (Ui.disabled (Ui.divSelect (Ui.onClassChange rows idx cls p)) = false <->
     cls ≠ "" /\
     exists r, r ∈ rows /\
               same_trimmed (cell r (idx class)) cls /\
               blank (cell r (idx division)) = false) /\
  (Ui.disabled (Ui.rollSelect (Ui.onClassChange rows idx cls p)) = true /\
   length (Ui.options (Ui.rollSelect (Ui.onClassChange rows idx cls p))) = 1) /\
  (Ui.disabled (Ui.rollSelect (Ui.onDivisionChange rows idx cls div p)) = false <->
     cls ≠ "" /\ div ≠ "" /\
     exists r, r ∈ rows /\
               same_trimmed (cell r (idx class)) cls /\
               same_trimmed (cell r (idx division)) div /\
               blank (cell r (idx roll)) = false) /\
  Ui.disabled (Ui.divSelect (Ui.onClassChange
    [toObject ["class"; "div"; "roll"] [" 10 "; "  "; "1"]] exampleIdx "10" p)) = true /\
  Ui.disabled (Ui.divSelect (Ui.onClassChange
    [toObject ["class"; "div"; "roll"] [" 10 "; "A "; "1"]] exampleIdx "10" p)) = false /\
  Ui.disabled (Ui.rollSelect (Ui.onDivisionChange
    [toObject ["class"; "div"; "roll"] [" 10 "; "A "; String tab " "]] exampleIdx
    "10" "A" p)) = true /\
  Ui.disabled (Ui.rollSelect (Ui.onDivisionChange
    [toObject ["class"; "div"; "roll"] [" 10 "; "A "; " 1"]] exampleIdx
    "10" " A" p)) = false.
Proof.
  destruct (menus_enabled host rows idx cls div p) as (Hdiv & Hroll & Hroll').
  split; [|split; [exact Hroll|split; [|by vm_compute]]].
  - rewrite Hdiv.
    split; intros (Hc & r & Hr & Hrc & Hrd);
      (split; [done|]; exists r; split; [done|]; split);
      [by apply cell_same | by apply cell_blank
       | by apply cell_same | by apply cell_blank].
  - rewrite Hroll'.
    split; intros (Hc & Hd & r & Hr & Hrc & Hrd & Hrx);
      (split; [done|]; split; [done|]; exists r; split; [done|];
       split; [|split]);
      [by apply cell_same | by apply cell_same | by apply cell_blank
       | by apply cell_same | by apply cell_same | by apply cell_blank].
Qed.

Lemma menus_enabled_iff_witness :
  (same_trimmed
     (cell (toObject ["class"; "div"; "roll"] [" 10 "; "A "; "1"]) (exampleIdx class))
     "10" /\
   blank (cell (toObject ["class"; "div"; "roll"] [" 10 "; "A "; "1"])
               (exampleIdx division)) = false) /\
  Ui.disabled (Ui.divSelect (@Ui.onClassChange exampleHost
    [toObject ["class"; "div"; "roll"] [" 10 "; "A "; "1"]] exampleIdx "10"
    (Ui.Page (Ui.Select [] true) (Ui.Select [] true) (Ui.Select [] true)
             true true ([], [])))) = false.
Proof.
  assert (same_trimmed
            (cell (toObject ["class"; "div"; "roll"] [" 10 "; "A "; "1"])
                  (exampleIdx class)) "10") as Hc.
  { exists "10". split.
    - split; [reflexivity | split; [reflexivity|]].
      exists " ", " ". split; [reflexivity | split; [reflexivity|]].
      vm_compute. reflexivity.
    - split; [reflexivity | split; [reflexivity|]].
      exists "", "". split; [reflexivity | split; [reflexivity|]].
      reflexivity. }
  assert (blank (cell (toObject ["class"; "div"; "roll"] [" 10 "; "A "; "1"])
                      (exampleIdx division)) = false) as Hd
    by (vm_compute; reflexivity).
  split; [exact (conj Hc Hd)|].
  apply (proj2 (proj1 (menus_enabled_iff exampleHost
           [toObject ["class"; "div"; "roll"] [" 10 "; "A "; "1"]]
           exampleIdx "10" ""
           (Ui.Page (Ui.Select [] true) (Ui.Select [] true) (Ui.Select [] true)
                    true true ([], []))))).
  split; [discriminate|].
  exists (toObject ["class"; "div"; "roll"] [" 10 "; "A "; "1"]).
  split; [by left|]. exact (conj Hc Hd).
Defined.

(** ** The bootstrap *)

Lemma step_blank (text : string) (i : nat) (c : ascii) :
  charAt text i = Some c -> c = cr \/ c = lf -> (step text i init).2 = init.
Proof. intros Hc Hnl. unfold step. rewrite Hc. by destruct Hnl as [-> | ->]. Qed.

Lemma loop_blank (fuel : nat) (text : string) :
  (forall i c, charAt text i = Some c -> c = cr \/ c = lf) ->
  forall (i : nat) (s' : state), loop fuel text i init = Some s' -> s' = init.
Proof.
  intros Hblank. induction fuel as [|fuel IH]; intros i s' Hl; simpl in Hl.
  - destruct (i <? String.length text); [done|]. by injection Hl as <-.
  - destruct (Nat.ltb_spec i (String.length text)) as [Hlt|Hge];
      [|by injection Hl as <-].
    destruct (charAt text i) as [c|] eqn:Hc.
    + pose proof (step_blank text i c Hc (Hblank i c Hc)) as Hstep.
      destruct (step text i init) as [i1 s1]. simpl in Hstep. subst s1. eauto.
    + unfold charAt in Hc. rewrite get_skip in Hc.
      destruct (skip i text) eqn:Hs; [|done].
      apply skip_empty_iff in Hs. lia.
Qed.

Lemma parseCSV_blank (text : string) :
  (forall i c, charAt text i = Some c -> c = cr \/ c = lf) ->
  parseCSV text = Some [].
Proof.
  intros Hblank. pose proof (parseCSV_scan text) as Hp.
  unfold parseCSV in Hp |- *.
  destruct (loop (String.length text) text 0 init) as [s|] eqn:Hl; [|done].
  by rewrite (loop_blank _ _ Hblank _ _ Hl).
Qed.

Section InitFacts.
Context `{Host}.


End InitFacts.

(** X20: a body made only of carriage returns and line feeds (the empty
    body included) is reported as an empty sheet. *)
Theorem init_blank_body (host : Host) (url : string) (status : nat)
    (text : string) (p : Ui.page) :
  nonempty url = true -> includes url "XXXX" = false ->
  (forall i c, charAt text i = Some c -> c = cr \/ c = lf) ->
  parseCSV text = Some [] /\
  Ui.init url true status text p = Some (inl Ui.CsvEmpty).
Proof.
  intros Hu Hx Hblank. pose proof (parseCSV_blank text Hblank) as Hp.
  split; [done|]. unfold Ui.init. by rewrite Hu, Hx, Hp.
Qed.

Lemma init_blank_body_witness :
  parseCSV (String cr (String lf (String lf ""))) = Some [] /\
  @Ui.init exampleHost "https://example.org/sheet.csv" true 200
    (String cr (String lf (String lf "")))
    (Ui.Page (Ui.Select [] true) (Ui.Select [] true) (Ui.Select [] true)
             true true ([], []))
  = Some (inl Ui.CsvEmpty).
Proof.
  apply (init_blank_body exampleHost); [reflexivity | reflexivity |].
  intros i c. destruct i as [|[|[|i]]]; simpl; intros [= <-]; auto.
Defined.



Lemma unresolved_iff (headers : list string) (k : role) :
  truthy (resolveColumns headers COLUMN_ALIASES k) = false <->
  forall h, h ∈ headers ->
            (lower (Some h) ∉ COLUMN_ALIASES k) /\
            includes (lower (Some h)) (key k) = false.
Proof.
  pose proof (resolveKey_truthy_iff headers COLUMN_ALIASES k
                (COLUMN_ALIASES_nonempty k)) as Hiff.
  destruct (truthy (resolveColumns headers COLUMN_ALIASES k)).
  - split; [done|]. intros Hall.
    destruct (proj1 Hiff eq_refl) as (h & Hh & Hcase).
    destruct (Hall h Hh) as [Hal Hinc]. destruct Hcase; [done | congruence].
  - split; [|done]. intros _ h Hh. split.
    + intros Hal. assert (false = true); [|done]. apply Hiff. eauto.
    + destruct (includes (lower (Some h)) (key k)) eqn:Hinc; [|done].
      assert (false = true); [|done]. apply Hiff. eauto.
Qed.

(** X22: for a fetched body that parses to at least one row, [init]
    reports missing columns, naming the headers found, exactly when for one
    of the three roles no header, lower-cased and trimmed, is an alias of the
    role or contains its name; otherwise it sets the session up.
    Lower-casing and trimming a header is lower-casing it without the white
    space at its two ends: a sheet headed [ STD ], [Section ] and [ ROLL No]
    sets the session up. *)
Theorem init_columns_missing (host : Host) (url : string) (status : nat)
    (text : string) (p : Ui.page) (head : list string) (data : list (list string)) :
  nonempty url = true -> includes url "XXXX" = false ->
  parseCSV text = Some (head :: data) ->
  (Ui.init url true status text p = Some (inl (Ui.ColumnsMissing head)) <->
   exists k, forall h, h ∈ head ->
                       (lower (Some h) ∉ COLUMN_ALIASES k) /\
                       includes (lower (Some h)) (key k) = false) /\
  (Ui.init url true status text p = Some (inl (Ui.ColumnsMissing head)) \/
   exists sess, Ui.init url true status text p = Some (inr sess)) /\
  (forall h c, trims_to h c -> lower (Some h) = toLowerCase c) /\
  (exists sess,
     Ui.init "https://example.org/sheet.csv" true 200
       (" STD ,Section , ROLL No" +:+ String lf "10,A,1") p = Some (inr sess)).
Proof.
  intros Hu Hx Hp.
  cut ((Ui.init url true status text p = Some (inl (Ui.ColumnsMissing head)) <->
        exists k, forall h, h ∈ head ->
                            (lower (Some h) ∉ COLUMN_ALIASES k) /\
                            includes (lower (Some h)) (key k) = false) /\
       (Ui.init url true status text p = Some (inl (Ui.ColumnsMissing head)) \/
        exists sess, Ui.init url true status text p = Some (inr sess))).
  { intros [H1 H2]. split; [exact H1|]. split; [exact H2|].
    split; [apply lower_spec|]. eexists. vm_compute. reflexivity. }
  unfold Ui.init. rewrite Hu, Hx, Hp. simpl.
  change (default [] ((head :: data) !! 0)) with head.
  destruct (truthy (resolveColumns head COLUMN_ALIASES class)) eqn:Hc;
    [|split; [|by left]; split; [|done]; intros _; exists class;
      by apply unresolved_iff].
  destruct (truthy (resolveColumns head COLUMN_ALIASES division)) eqn:Hd;
    [|split; [|by left]; split; [|done]; intros _; exists division;
      by apply unresolved_iff].
  destruct (truthy (resolveColumns head COLUMN_ALIASES roll)) eqn:Hr;
    [|split; [|by left]; split; [|done]; intros _; exists roll;
      by apply unresolved_iff].
  simpl. split; [|right; eauto]. split; [done|].
  intros [k Hk]. apply unresolved_iff in Hk. destruct k; congruence.
Qed.

Lemma init_columns_missing_witness :
  parseCSV ("Name,Std,Roll" +:+ String lf "x,10,1")
  = Some [["Name"; "Std"; "Roll"]; ["x"; "10"; "1"]] /\
  (@Ui.init exampleHost "https://example.org/sheet.csv" true 200
     ("Name,Std,Roll" +:+ String lf "x,10,1")
     (Ui.Page (Ui.Select [] true) (Ui.Select [] true) (Ui.Select [] true)
              true true ([], []))
   = Some (inl (Ui.ColumnsMissing ["Name"; "Std"; "Roll"])) <->
   exists k, forall h, h ∈ ["Name"; "Std"; "Roll"] ->
                       (lower (Some h) ∉ COLUMN_ALIASES k) /\
                       includes (lower (Some h)) (key k) = false).
Proof.
  split; [reflexivity|].
  apply (proj1 (init_columns_missing exampleHost
                  "https://example.org/sheet.csv" 200
                  ("Name,Std,Roll" +:+ String lf "x,10,1") _
                  ["Name"; "Std"; "Roll"] [["x"; "10"; "1"]]
                  eq_refl eq_refl eq_refl)).
Defined.
